(** * test-api: the query and mutation engine of api/[...route].js

    A shallow embedding of the request handlers of the generic REST facade
    (api/[...route].js; dist/index.js is an older build of the same routes)
    and of the part of the JavaScript semantics the handlers rely on.

    Conventions of the model.
    - JSON numbers are integers ([Z]), printed in decimal; the conversion of
      a string to a number is exact (a rational).  This is the language's
      behaviour for integers a double holds exactly; IEEE rounding is not
      modelled, except that [parseInt] overflows to Infinity.
    - Strings are byte strings; [toLowerCase] acts on the ASCII letters and
      strings compare byte by byte.
    - A record is an object as [JSON.parse] or the body parser builds it: an
      ordered list of own properties, each key once ([wf_record]).  The
      integer-like keys that an engine lists first, and nested objects with
      an own [toString] or [valueOf], are not modelled.
    - A property read looks at the own properties, then at
      [Object.prototype], as in the language.
    - Two arrays or objects met in a comparison are different references and
      so never [===].
    - [Array.prototype.sort] is a parameter of the list route; what the
      language promises about it is [sort_contract].
    - A handler maps the store and the parts of the request to the new
      store and either the response sent or the TypeError thrown. *)

From Stdlib Require Import ZArith QArith Lia List Bool String Ascii.
From Stdlib Require Import Permutation Sorted DecimalString DecimalPos.
From stdpp Require Import base option gmap strings.

Import ListNotations.
Set Warnings "-register-all".
Local Open Scope string_scope.
Local Open Scope list_scope.
Local Open Scope Z_scope.

(** ** JavaScript values *)

Inductive value : Type :=
| VUndef
| VNull
| VBool (b : bool)
| VNum (n : Z)
| VStr (s : string)
| VArr (items : list value)
| VObj (fields : list (string * value))
| VHost (prim : string).
(* [VHost prim]: an object reached through [Object.prototype] (a built-in
   method, or the prototype itself); [prim] is its string conversion. *)

Definition record : Type := list (string * value).

Module JS.

(** *** Strings *)

Definition lower_ascii (c : ascii) : ascii :=
  let n := nat_of_ascii c in
  if (andb (Nat.leb 65 n) (Nat.leb n 90)) then ascii_of_nat (n + 32) else c.

Fixpoint toLowerCase (s : string) : string :=
  match s with
  | EmptyString => EmptyString
  | String c r => String (lower_ascii c) (toLowerCase r)
  end.

Fixpoint startsWith (p s : string) : bool :=
  match p, s with
  | EmptyString, _ => true
  | String a p', String b s' => if Ascii.eqb a b then startsWith p' s' else false
  | String _ _, EmptyString => false
  end.

(* [hay.includes(needle)] *)
Fixpoint includes (hay needle : string) : bool :=
  if startsWith needle hay then true
  else match hay with
       | EmptyString => false
       | String _ r => includes r needle
       end.

Fixpoint join (sep : string) (l : list string) : string :=
  match l with
  | [] => EmptyString
  | [x] => x
  | x :: r => String.append x (String.append sep (join sep r))
  end.

(* Number::toString for an integer *)
Definition num_to_string (n : Z) : string :=
  NilZero.string_of_int (Z.to_int n).

(** *** Type tests and conversions *)

Definition is_string (v : value) : bool :=
  match v with VStr _ => true | _ => false end.

(* ToBoolean *)
Definition truthy (v : value) : bool :=
  match v with
  | VUndef | VNull => false
  | VBool b => b
  | VNum n => negb (Z.eqb n 0)
  | VStr s => negb (String.eqb s EmptyString)
  | VArr _ | VObj _ | VHost _ => true
  end.

(* String(v) *)
Fixpoint to_string (v : value) : string :=
  match v with
  | VUndef => "undefined"
  | VNull => "null"
  | VBool true => "true"
  | VBool false => "false"
  | VNum n => num_to_string n
  | VStr s => s
  | VArr l =>
      join ","
        (map (fun x => match x with
                       | VUndef | VNull => EmptyString
                       | _ => to_string x
                       end) l)
  | VObj _ => "[object Object]"
  | VHost p => p
  end.

(** *** Numbers *)

Definition is_ws (c : ascii) : bool :=
  let n := nat_of_ascii c in
  orb (andb (Nat.leb 9 n) (Nat.leb n 13)) (Nat.eqb n 32).

Fixpoint skip_ws (s : string) : string :=
  match s with
  | String c r => if is_ws c then skip_ws r else s
  | EmptyString => EmptyString
  end.

Fixpoint trim_end (s : string) : string :=
  match s with
  | EmptyString => EmptyString
  | String c r =>
      let r' := trim_end r in
      if andb (is_ws c) (String.eqb r' EmptyString) then EmptyString
      else String c r'
  end.

Definition digit_in (radix : Z) (c : ascii) : option Z :=
  let n := Z.of_nat (nat_of_ascii c) in
  let d := if andb (48 <=? n)%Z (n <=? 57)%Z then Some (n - 48)%Z
           else if andb (97 <=? n)%Z (n <=? 102)%Z then Some (n - 87)%Z
           else if andb (65 <=? n)%Z (n <=? 70)%Z then Some (n - 55)%Z
           else None in
  match d with
  | Some k => if (k <? radix)%Z then Some k else None
  | None => None
  end.

(* the longest prefix of digits of the radix, most significant first *)
Fixpoint take_digits (radix : Z) (s : string) : list Z * string :=
  match s with
  | EmptyString => ([], EmptyString)
  | String c r =>
      match digit_in radix c with
      | Some d => let '(ds, rest) := take_digits radix r in (d :: ds, rest)
      | None => ([], s)
      end
  end.

Definition digits_value (radix : Z) (ds : list Z) : Z :=
  fold_left (fun acc d => acc * radix + d)%Z ds 0%Z.

(* a leading sign: its factor and the rest of the string *)
Definition take_sign (s : string) : Z * string :=
  match s with
  | String "-" r => ((-1)%Z, r)
  | String "+" r => (1%Z, r)
  | _ => (1%Z, s)
  end.

(* The largest magnitude that does not round to an infinite double. *)
Definition finite_bound : Z := (2 ^ 1024 - 2 ^ 970)%Z.

(* [parseInt(s, 10)]: [None] is NaN.  An integer too large for a double
   becomes Infinity, which [Number.isFinite] rejects: see [toInt]. *)
Definition parseInt10 (s : string) : option Z :=
  let '(sign, r) := take_sign (skip_ws s) in
  match take_digits 10 r with
  | ([], _) => None
  | (ds, _) => Some (sign * digits_value 10 ds)%Z
  end.

Definition isFinite (n : Z) : bool := (Z.abs n <? finite_bound)%Z.

Inductive number : Type :=
| NaN
| Inf (negative : bool)
| Fin (q : Q).

Definition num_eq (a b : number) : bool :=
  match a, b with
  | Fin x, Fin y => Qeq_bool x y
  | Inf s, Inf t => Bool.eqb s t
  | _, _ => false
  end.

(* a < b, false when either is NaN *)
Definition num_lt (a b : number) : bool :=
  match a, b with
  | NaN, _ | _, NaN => false
  | Inf s, Inf t => andb s (negb t)
  | Inf s, Fin _ => s
  | Fin _, Inf t => negb t
  | Fin x, Fin y => negb (Qle_bool y x)
  end.

Definition exponent_part (s : string) : option Z :=
  match s with
  | EmptyString => Some 0%Z
  | String c r =>
      if orb (Ascii.eqb c "e") (Ascii.eqb c "E") then
        let '(sign, r') := take_sign r in
        match take_digits 10 r' with
        | ([], _) => None
        | (ds, EmptyString) => Some (sign * digits_value 10 ds)%Z
        | (_, String _ _) => None
        end
      else None
  end.

Definition decimal_literal (s : string) : number :=
  let '(sign, r) := take_sign s in
  if String.eqb r "Infinity" then Inf (sign <? 0)%Z
  else
    let '(d1, r1) := take_digits 10 r in
    let '(d2, r2) := match r1 with
                     | String "." r' => take_digits 10 r'
                     | _ => ([], r1)
                     end in
    match d1 ++ d2 with
    | [] => NaN
    | ds =>
        match exponent_part r2 with
        | None => NaN
        | Some e =>
            Fin (inject_Z (sign * digits_value 10 ds)
                 * Qpower (inject_Z 10) (e - Z.of_nat (List.length d2)))%Q
        end
    end.

Definition radix_literal (radix : Z) (s : string) : number :=
  match take_digits radix s with
  | ([], _) => NaN
  | (ds, EmptyString) => Fin (inject_Z (digits_value radix ds))
  | (_, String _ _) => NaN
  end.

(* StringToNumber *)
Definition string_to_number (s : string) : number :=
  let t := trim_end (skip_ws s) in
  match t with
  | EmptyString => Fin 0
  | String "0" (String c r) =>
      if orb (Ascii.eqb c "x") (Ascii.eqb c "X") then radix_literal 16 r
      else if orb (Ascii.eqb c "o") (Ascii.eqb c "O") then radix_literal 8 r
      else if orb (Ascii.eqb c "b") (Ascii.eqb c "B") then radix_literal 2 r
      else decimal_literal t
  | _ => decimal_literal t
  end.

Definition is_object (v : value) : bool :=
  match v with VArr _ | VObj _ | VHost _ => true | _ => false end.

Definition nullish (v : value) : bool :=
  match v with VUndef | VNull => true | _ => false end.

(* ToPrimitive *)
Definition to_primitive (v : value) : value :=
  if is_object v then VStr (to_string v) else v.

(* ToNumber *)
Definition to_number (v : value) : number :=
  match to_primitive v with
  | VUndef => NaN
  | VNull => Fin 0
  | VBool b => Fin (if b then 1 else 0)
  | VNum n => Fin (inject_Z n)
  | VStr s => string_to_number s
  | _ => NaN
  end.

(** *** Comparison operators *)

(* a === b *)
Definition strict_eq (a b : value) : bool :=
  match a, b with
  | VUndef, VUndef | VNull, VNull => true
  | VBool x, VBool y => Bool.eqb x y
  | VNum x, VNum y => (x =? y)%Z
  | VStr x, VStr y => String.eqb x y
  | VHost x, VHost y => String.eqb x y
  | _, _ => false
  end.

(* a == b *)
Definition loose_eq (a b : value) : bool :=
  if andb (is_object a) (is_object b) then strict_eq a b
  else if orb (nullish a) (nullish b) then andb (nullish a) (nullish b)
  else match to_primitive a, to_primitive b with
       | VStr x, VStr y => String.eqb x y
       | x, y => num_eq (to_number x) (to_number y)
       end.

(* a > b *)
Definition gt (a b : value) : bool :=
  match to_primitive a, to_primitive b with
  | VStr x, VStr y => String.ltb y x
  | x, y => num_lt (to_number y) (to_number x)
  end.

(** *** JSON.stringify *)

Definition hex_digit (n : nat) : ascii :=
  ascii_of_nat (if Nat.ltb n 10 then 48 + n else 87 + n).

Definition dquote : ascii := ascii_of_nat 34.
Definition backslash : ascii := ascii_of_nat 92.

Definition esc (s : string) : string := String backslash s.

Definition escape_char (c : ascii) : string :=
  let n := nat_of_ascii c in
  if Nat.eqb n 34 then esc (String dquote EmptyString)
  else if Nat.eqb n 92 then esc (String backslash EmptyString)
  else if Nat.eqb n 8 then esc "b"
  else if Nat.eqb n 9 then esc "t"
  else if Nat.eqb n 10 then esc "n"
  else if Nat.eqb n 12 then esc "f"
  else if Nat.eqb n 13 then esc "r"
  else if Nat.ltb n 32 then
    esc (String.append "u00"
           (String (hex_digit (Nat.div n 16))
              (String (hex_digit (Nat.modulo n 16)) EmptyString)))
  else String c EmptyString.

Fixpoint escape (s : string) : string :=
  match s with
  | EmptyString => EmptyString
  | String c r => String.append (escape_char c) (escape r)
  end.

Definition quote (s : string) : string :=
  String dquote (String.append (escape s) (String dquote EmptyString)).

(* The serialization of a value; [None] where JSON.stringify yields
   undefined (the property is then left out, an array slot is null). *)
Fixpoint stringify_value (v : value) : option string :=
  match v with
  | VUndef | VHost _ => None
  | VNull => Some "null"
  | VBool true => Some "true"
  | VBool false => Some "false"
  | VNum n => Some (num_to_string n)
  | VStr s => Some (quote s)
  | VArr l =>
      Some (String.append "["
              (String.append
                 (join "," (map (fun x => match stringify_value x with
                                          | Some t => t
                                          | None => "null"
                                          end) l))
                 "]"))
  | VObj fs =>
      Some (String.append "{"
              (String.append
                 (join "," (flat_map (fun kv => match stringify_value (snd kv) with
                                                | Some t => [String.append (quote (fst kv)) (String.append ":" t)]
                                                | None => []
                                                end) fs))
                 "}"))
  end.

(* JSON.stringify of an object *)
Definition stringify (r : record) : string :=
  match stringify_value (VObj r) with
  | Some t => t
  | None => "undefined"
  end.

(** *** Objects *)

(* the properties every object inherits from Object.prototype *)
Definition proto_members : list string :=
  [ "constructor"; "__defineGetter__"; "__defineSetter__"; "hasOwnProperty";
    "__lookupGetter__"; "__lookupSetter__"; "isPrototypeOf";
    "propertyIsEnumerable"; "toString"; "valueOf"; "__proto__";
    "toLocaleString" ].

Definition proto_member (k : string) : bool :=
  existsb (String.eqb k) proto_members.

(* the string conversion of an inherited member (Node's rendering) *)
Definition proto_text (k : string) : string :=
  if String.eqb k "__proto__" then "[object Object]"
  else String.append "function "
         (String.append (if String.eqb k "constructor" then "Object" else k)
            "() { [native code] }").

Fixpoint own (r : record) (k : string) : option value :=
  match r with
  | [] => None
  | (k', v) :: rest => if String.eqb k' k then Some v else own rest k
  end.

(* r[k] *)
Definition get (r : record) (k : string) : value :=
  match own r k with
  | Some v => v
  | None => if proto_member k then VHost (proto_text k) else VUndef
  end.

(* k in r *)
Definition has (r : record) (k : string) : bool :=
  match own r k with
  | Some _ => true
  | None => proto_member k
  end.

(* r[k] = v on an own data property: in place, or appended *)
Fixpoint set (r : record) (k : string) (v : value) : record :=
  match r with
  | [] => [(k, v)]
  | (k', v') :: rest =>
      if String.eqb k' k then (k', v) :: rest else (k', v') :: set rest k v
  end.

(* { ...target, ...src } *)
Definition spread (target src : record) : record :=
  fold_left (fun acc kv => set acc (fst kv) (snd kv)) src target.

(** *** Arrays *)

Section Arrays.
Context {A : Type}.

(* findIndex: [None] is -1 *)
Fixpoint findIndex (p : A -> bool) (l : list A) : option nat :=
  match l with
  | [] => None
  | x :: r => if p x then Some O else option_map S (findIndex p r)
  end.

(* l.splice(i, 1): the array left, for i within range *)
Definition splice1 (i : nat) (l : list A) : list A :=
  firstn i l ++ skipn (S i) l.

(* l.slice(start, end_) for 0 <= start *)
Definition slice (start end_ : Z) (l : list A) : list A :=
  firstn (Z.to_nat (end_ - start)) (skipn (Z.to_nat start) l).
End Arrays.

End JS.


(** ** The store *)

(* A top-level value of the parsed snapshot: an array of records
   ([SArray]), or a value that is not an array ([SOther]). *)
Inductive snapshot_value : Type :=
| SArray (rows : list record)
| SOther (v : value).

(* [ensureArrays]: a value that is not an array becomes the empty array. *)
Definition ensureArrays (d : gmap string snapshot_value) : gmap string (list record) :=
  fmap (fun v => match v with SArray rows => rows | SOther _ => [] end) d.

Abbreviation store := (gmap string (list record)).

(* What [db[resource]] evaluates to. *)
Inductive slot : Type :=
| Own (rows : list record)
| Inherited
| Missing.

Definition db_get (db : store) (resource : string) : slot :=
  match db !! resource with
  | Some rows => Own rows
  | None => if JS.proto_member resource then Inherited else Missing
  end.

(** ** Utils *)

Definition toInt (v : value) (def : Z) : Z :=
  match JS.parseInt10 (JS.to_string v) with
  | Some n => if JS.isFinite n then n else def
  | None => def
  end.

Definition reserved : list string := ["_page"; "_limit"; "_sort"; "_order"; "q"].

Definition is_reserved (k : string) : bool := existsb (String.eqb k) reserved.

Fixpoint matches (item query : record) : bool :=
  match query with
  | [] => true
  | (k, v) :: rest =>
      if is_reserved k then matches item rest
      else
        let iv := JS.get item k in
        match v, iv with
        | VStr sv, VStr siv =>
            if negb (String.eqb (JS.toLowerCase siv) (JS.toLowerCase sv))
            then false else matches item rest
        | _, _ =>
            if negb (JS.loose_eq iv v) then false else matches item rest
        end
  end.

Definition fullText (item : record) (needle : value) : bool :=
  let hay := JS.toLowerCase (JS.stringify item) in
  JS.includes hay (JS.toLowerCase (JS.to_string needle)).

(* The result of a call that can throw a TypeError. *)
Inductive completion (A : Type) : Type :=
| Normal (a : A)
| Throw.
Arguments Normal {A} a.
Arguments Throw {A}.

(* The compare function handed to [sort]. *)
Definition compare_by (sortKey : string) (dir : Z) (a b : record) : Z :=
  let va := JS.get a sortKey in
  let vb := JS.get b sortKey in
  if JS.strict_eq va vb then 0
  else if JS.gt va vb then dir else (- dir).

(* [(order || "asc").toLowerCase() === "desc" ? -1 : 1]; a truthy value
   that is not a string has no [toLowerCase]. *)
Definition direction (order : value) : completion Z :=
  match (if JS.truthy order then order else VStr "asc") with
  | VStr s => Normal (if String.eqb (JS.toLowerCase s) "desc" then (-1) else 1)
  | _ => Throw
  end.

Section Handlers.

(* [Array.prototype.sort] of the engine the code runs on. *)
Variable array_sort : (record -> record -> Z) -> list record -> list record.

Definition sortItems (items : list record) (sortKey order : value)
  : completion (list record) :=
  if negb (JS.truthy sortKey) then Normal items
  else match direction order with
       | Normal dir => Normal (array_sort (compare_by (JS.to_string sortKey) dir) items)
       | Throw => Throw
       end.

(** ** Routes *)

Record response : Type := Response {
  status : Z;
  headers : list (string * string);
  body : value
}.

Definition json (code : Z) (v : value) : response := Response code [] v.

Definition resource_not_found : response :=
  json 404 (VObj [("error", VStr "Resource not found")]).

Definition not_found : response :=
  json 404 (VObj [("error", VStr "Not found")]).

(* [String(x.id) === String(id)], [id] being a route parameter *)
Definition has_id (id : string) (x : record) : bool :=
  String.eqb (JS.to_string (JS.get x "id")) id.

(* [const { _page, _limit, _sort, _order, q, ...filters } = req.query] *)
Definition rest_filters (query : record) : record :=
  List.filter (fun kv => negb (is_reserved (fst kv))) query.

(* [data.filter((x) => matches(x, filters))] *)
Definition filter_step (filters : record) (data : list record) : list record :=
  List.filter (fun x => matches x filters) data.

(* [if (q) items = items.filter((x) => fullText(x, q))] *)
Definition search_step (q : value) (items : list record) : list record :=
  if JS.truthy q then List.filter (fun x => fullText x q) items else items.

(* the pagination block: the header value and the page *)
Definition paginate (_page _limit : value) (items : list record)
  : Z * list record :=
  let page := Z.max 1 (toInt _page 1) in
  let limit := Z.max 1 (Z.min 1000 (toInt _limit (Z.of_nat (length items)))) in
  let start := (page - 1) * limit in
  let end_ := start + limit in
  (Z.of_nat (length items), JS.slice start end_ items).

(* app.get("/api/:resource") *)
Definition get_resource (db : store) (resource : string) (query : record)
  : store * completion response :=
  match db_get db resource with
  | Missing => (db, Normal resource_not_found)
  | Inherited => (db, Throw)
  | Own data =>
      let items := filter_step (rest_filters query) data in
      let items := search_step (JS.get query "q") items in
      match sortItems items (JS.get query "_sort") (JS.get query "_order") with
      | Throw => (db, Throw)
      | Normal items =>
          let '(total, page) :=
            paginate (JS.get query "_page") (JS.get query "_limit") items in
          (db, Normal (Response 200
                         [("X-Total-Count", JS.num_to_string total)]
                         (VArr (map VObj page))))
      end
  end.

(* app.get("/api/:resource/:id") *)
Definition get_resource_id (db : store) (resource id : string)
  : store * completion response :=
  match db_get db resource with
  | Missing => (db, Normal resource_not_found)
  | Inherited => (db, Throw)
  | Own data =>
      match List.find (has_id id) data with
      | None => (db, Normal not_found)
      | Some found => (db, Normal (json 200 (VObj found)))
      end
  end.

(* app.post("/api/:resource"); [req_body] is [None] when the request has
   no parsed body, [uuid] is what [randomUUID()] returns if it is called. *)
Definition post_resource (uuid : string) (db : store) (resource : string)
    (req_body : option record) : store * completion response :=
  match db_get db resource with
  | Missing => (db, Normal resource_not_found)
  | Inherited => (db, Throw)
  | Own data =>
      let body0 := match req_body with Some b => b | None => [] end in
      let body1 := if negb (JS.has body0 "id") then JS.set body0 "id" (VStr uuid)
                   else body0 in
      (<[resource := data ++ [body1]]> db, Normal (json 201 (VObj body1)))
  end.

(* app.patch("/api/:resource/:id") *)
Definition patch_resource_id (db : store) (resource id : string)
    (req_body : option record) : store * completion response :=
  match db_get db resource with
  | Missing => (db, Normal resource_not_found)
  | Inherited => (db, Throw)
  | Own data =>
      match JS.findIndex (has_id id) data with
      | None => (db, Normal not_found)
      | Some idx =>
          match data !! idx with
          | None => (db, Throw)
          | Some old =>
          let sent := match req_body with Some b => b | None => [] end in
          let merged := JS.set (JS.spread (JS.spread [] old) sent) "id" (JS.get old "id") in
          (<[resource := <[idx := merged]> data]> db, Normal (json 200 (VObj merged)))
          end
      end
  end.

(* app.put("/api/:resource/:id") *)
Definition put_resource_id (db : store) (resource id : string)
    (req_body : option record) : store * completion response :=
  match db_get db resource with
  | Missing => (db, Normal resource_not_found)
  | Inherited => (db, Throw)
  | Own data =>
      match JS.findIndex (has_id id) data with
      | None => (db, Normal not_found)
      | Some idx =>
          match data !! idx with
          | None => (db, Throw)
          | Some old =>
          let sent := match req_body with Some b => b | None => [] end in
          let next := JS.set (JS.spread [] sent) "id" (JS.get old "id") in
          (<[resource := <[idx := next]> data]> db, Normal (json 200 (VObj next)))
          end
      end
  end.

(* app.delete("/api/:resource/:id") *)
Definition delete_resource_id (db : store) (resource id : string)
  : store * completion response :=
  match db_get db resource with
  | Missing => (db, Normal resource_not_found)
  | Inherited => (db, Throw)
  | Own data =>
      match JS.findIndex (has_id id) data with
      | None => (db, Normal not_found)
      | Some idx =>
          let removed := match data !! idx with
                         | Some x => VObj x
                         | None => VUndef
                         end in
          (<[resource := JS.splice1 idx data]> db, Normal (json 200 removed))
      end
  end.

End Handlers.

(** ** The contract of [Array.prototype.sort]

    ECMAScript fixes the result of [sort] only for a compare function that
    is a consistent comparator on the elements: the result is then ordered
    and stable.  Otherwise the order is implementation-defined. *)

Section Comparator.
Context {A : Type}.
Variable cmp : A -> A -> Z.

Definition consistent_on (l : list A) : Prop :=
  forall a b c, In a l -> In b l -> In c l ->
    cmp a a = 0 /\
    (cmp a b = 0 -> cmp b a = 0) /\
    (cmp a b = 0 -> cmp b c = 0 -> cmp a c = 0) /\
    (cmp a b < 0 -> cmp b c < 0 -> cmp a c < 0) /\
    (cmp a b > 0 -> cmp b c > 0 -> cmp a c > 0).

Definition tied (x y : A) : bool := cmp x y =? 0.

Definition ordered (l : list A) : Prop :=
  StronglySorted (fun a b => cmp a b <= 0) l.

(* the elements tied with any given one come out in the order they had *)
Definition stable_for (l l' : list A) : Prop :=
  forall x, In x l -> List.filter (tied x) l' = List.filter (tied x) l.

(* A stable insertion sort. *)
Fixpoint insert (x : A) (l : list A) : list A :=
  match l with
  | [] => [x]
  | y :: r => if cmp x y <=? 0 then x :: y :: r else y :: insert x r
  end.

Fixpoint isort (l : list A) : list A :=
  match l with
  | [] => []
  | x :: r => insert x (isort r)
  end.


End Comparator.

Definition sort_contract
    (srt : (record -> record -> Z) -> list record -> list record) : Prop :=
  forall cmp l,
    Permutation l (srt cmp l) /\
    (consistent_on cmp l -> ordered cmp (srt cmp l) /\ stable_for cmp l (srt cmp l)).

(** ** Statements and data used by the theorems *)

(* The claim as the specification words it. *)
Definition list_all_as_stated : Prop :=
  forall srt (db : store) (resource : string) (data : list record),
    db !! resource = Some data ->
    get_resource srt db resource [] =
      (db, Normal (Response 200
                     [("X-Total-Count", JS.num_to_string (Z.of_nat (length data)))]
                     (VArr (map VObj data)))).

Definition many_rows : list record := repeat [("id", VNum 0)] 1001.


(* The collection of the specification's scenarios. *)
Definition dune : record :=
  [("id", VStr "1"); ("title", VStr "Dune"); ("year", VNum 1965)].

Definition foundation : record :=
  [("id", VStr "2"); ("title", VStr "Foundation"); ("year", VNum 1951)].

Definition books : list record := [dune; foundation].

Definition books_db : store := {[ "books" := books ]}.

(* The shape of what [randomUUID()] returns: a version 4 UUID in lower
   case, 8-4-4-4-12. *)
Definition lower_hex (c : ascii) : bool :=
  let n := nat_of_ascii c in
  orb (andb (Nat.leb 48 n) (Nat.leb n 57)) (andb (Nat.leb 97 n) (Nat.leb n 102)).

Fixpoint uuid_shape (i : nat) (s : string) : bool :=
  match s with
  | EmptyString => Nat.eqb i 36
  | String c r =>
      andb (if existsb (Nat.eqb i) [8; 13; 18; 23]%nat then Ascii.eqb c "-"
            else if Nat.eqb i 14 then Ascii.eqb c "4"
            else if Nat.eqb i 19 then existsb (Ascii.eqb c) ["8"; "9"; "a"; "b"]%char
            else lower_hex c)
           (uuid_shape (S i) r)
  end.

Definition is_uuid (s : string) : bool := uuid_shape 0 s.

(* no record of the collection carries the identifier *)
Definition unused_in (data : list record) (id : string) : Prop :=
  Forall (fun x => has_id id x = false) data.

(* Create, as the specification words it. *)
Definition create_as_stated : Prop :=
  forall (uuid : string) (db : store) (resource : string) (data : list record)
         (req_body : option record),
    db !! resource = Some data ->
    is_uuid uuid = true ->
    let sent := match req_body with Some b => b | None => [] end in
    exists stored,
      post_resource uuid db resource req_body =
        (<[resource := data ++ [stored]]> db, Normal (json 201 (VObj stored))) /\
      (JS.has sent "id" = false ->
         JS.get stored "id" = VStr uuid /\ uuid <> EmptyString /\ unused_in data uuid) /\
      (JS.has sent "id" = true -> stored = sent).

Definition sample_uuid : string := "123e4567-e89b-42d3-a456-426614174000".

(* An object has each of its keys once. *)
Fixpoint wf_record (r : record) : bool :=
  match r with
  | [] => true
  | (k, _) :: rest =>
      match JS.own rest k with
      | None => wf_record rest
      | Some _ => false
      end
  end.

(* The body of the PATCH scenario, with an id the handler must ignore. *)
Definition year_patch : record := [("year", VNum 1966); ("id", VStr "9")].

(* How one filter key is compared, in the words of the specification: both
   strings, case-insensitive equality; otherwise loose equality. *)
Definition key_match (iv v : value) : bool :=
  if andb (JS.is_string v) (JS.is_string iv)
  then String.eqb (JS.toLowerCase (JS.to_string iv)) (JS.toLowerCase (JS.to_string v))
  else JS.loose_eq iv v.



(* [_order] compared with "desc" without regard to case *)
Definition is_desc (order : value) : bool :=
  match order with
  | VStr s => String.eqb (JS.toLowerCase s) "desc"
  | _ => false
  end.






(* every record has a number under the key *)
Definition numeric_key (key : string) (items : list record) : Prop :=
  Forall (fun x => exists n, JS.get x key = VNum n) items.

(* every record of every collection is well formed *)
Definition wf_store (db : store) : Prop :=
  forall resource data,
    db !! resource = Some data -> Forall (fun x => wf_record x = true) data.

(** ** The index routes *)

(* [Object.keys(db)]: the names of the collections.  An engine lists them
   in insertion order, which the store of the model does not keep; the
   list here has the same names in some order. *)
Definition object_keys (db : store) : list string := map fst (map_to_list db).

(* app.get("/api") *)
Definition get_api (db : store) : store * completion response :=
  (db, Normal (json 200 (VObj [("resources", VArr (map VStr (object_keys db)))]))).

(* app.get("/api/health") *)
Definition get_api_health (db : store) : store * completion response :=
  (db, Normal (json 200 (VObj [("ok", VBool true);
                               ("resources", VArr (map VStr (object_keys db)))]))).

(** ** The loader *)

(* What the process finds when it starts.  A file that exists can be read;
   [fetch] gives [None] when the request fails and otherwise the [ok] flag
   of the response and its body; [JSON_parse] gives [None] on a syntax
   error and otherwise the object parsed, the snapshot being a JSON object
   at top level. *)
Record environment : Type := Environment {
  DB_PATH_API : string;
  DB_PATH_ROOT : string;
  DATA_URL : option string;
  files : gmap string string;
  fetch : string -> option (bool * string);
  JSON_parse : string -> option (gmap string snapshot_value)
}.

Section Loader.
Variable env : environment.

(* [tryLoadFrom(p)]: the store after the call, and the value returned or
   the exception of [JSON.parse], which leaves [db] as it was. *)
Definition tryLoadFrom (p : string) (db : store) : store * completion bool :=
  match files env !! p with
  | None => (db, Normal false)
  | Some text =>
      match JSON_parse env text with
      | None => (db, Throw)
      | Some d => (ensureArrays d, Normal true)
      end
  end.

Definition loadLocalDB (db : store) : store * completion unit :=
  match tryLoadFrom (DB_PATH_API env) db with
  | (db1, Throw) => (db1, Throw)
  | (db1, Normal true) => (db1, Normal tt)
  | (db1, Normal false) =>
      match tryLoadFrom (DB_PATH_ROOT env) db1 with
      | (db2, Throw) => (db2, Throw)
      | (db2, Normal true) => (db2, Normal tt)
      | (db2, Normal false) => (db2, Throw)
      end
  end.

Definition loadRemoteDB (url : string) (db : store) : store * completion unit :=
  match fetch env url with
  | None => (db, Throw)
  | Some (ok, text) =>
      if negb ok then (db, Throw)
      else match JSON_parse env text with
           | None => (db, Throw)
           | Some d => (ensureArrays d, Normal tt)
           end
  end.

(* [readyPromise]: the store the requests are served from.  [db] starts as
   the empty object. *)
Definition cold_start : store :=
  let db : store := ∅ in
  let first :=
    match DATA_URL env with
    | Some url =>
        if JS.truthy (VStr url) then loadRemoteDB url db else loadLocalDB db
    | None => loadLocalDB db
    end in
  match first with
  | (db1, Normal _) => db1
  | (db1, Throw) => fst (loadLocalDB db1)
  end.

End Loader.

(* the same surroundings with another file at the root path *)
Definition with_root_file (env : environment) (text : option string) : environment :=
  Environment (DB_PATH_API env) (DB_PATH_ROOT env) (DATA_URL env)
    (match text with
     | Some t => <[DB_PATH_ROOT env := t]> (files env)
     | None => delete (DB_PATH_ROOT env) (files env)
     end)
    (fetch env) (JSON_parse env).

(* the snapshot a good remote source delivers *)
Definition remote_snapshot (env : environment) : option (gmap string snapshot_value) :=
  match DATA_URL env with
  | Some url =>
      if JS.truthy (VStr url) then
        match fetch env url with
        | Some (true, text) => JSON_parse env text
        | _ => None
        end
      else None
  | None => None
  end.

(* the snapshot the local files deliver: the file beside the handler when
   it exists, the file at the root otherwise *)
Definition local_snapshot (env : environment) : option (gmap string snapshot_value) :=
  match files env !! DB_PATH_API env with
  | Some text => JSON_parse env text
  | None =>
      match files env !! DB_PATH_ROOT env with
      | Some text => JSON_parse env text
      | None => None
      end
  end.

(* surroundings for the examples: one file, whose text stands for the
   snapshot of the scenarios *)
Definition sample_parse (text : string) : option (gmap string snapshot_value) :=
  if String.eqb text "books" then Some {[ "books" := SArray books ]}
  else if String.eqb text "empty" then Some ∅
  else None.

Definition sample_env : environment :=
  Environment "/var/task/api/db.json" "/var/task/db.json" (Some "https://data")
    {[ "/var/task/api/db.json" := "broken"; "/var/task/db.json" := "books" ]}
    (fun url => if String.eqb url "https://data" then Some (false, "books") else None)
    sample_parse.

(* a string of printable ASCII characters (32 to 126) other than the
   double quote and the backslash: [JSON.stringify] writes it as it is, and
   [toLowerCase] maps each of its characters by itself, whatever surrounds
   it *)
Fixpoint plain (s : string) : bool :=
  match s with
  | EmptyString => true
  | String c r =>
      let n := nat_of_ascii c in
      andb (andb (andb (Nat.leb 32 n) (Nat.leb n 126))
                 (andb (negb (Nat.eqb n 34)) (negb (Nat.eqb n 92))))
           (plain r)
  end.

(* a string of ASCII characters: its bytes are its UTF-16 code units, so
   the byte order of [JS.gt] is the order [>] gives *)
Fixpoint ascii_only (s : string) : bool :=
  match s with
  | EmptyString => true
  | String c r => andb (Nat.ltb (nat_of_ascii c) 128) (ascii_only r)
  end.

(* [n] occurs in [h] *)
Definition occurs (n h : string) : Prop :=
  exists a c, h = String.append a (String.append n c).

(* every record has an ASCII string under the key *)
Definition string_key (key : string) (items : list record) : Prop :=
  Forall (fun x => exists s, JS.get x key = VStr s /\ ascii_only s = true) items.

(* [a] may stand before [b] in a sort by numbers, or by strings *)
Definition number_order (key : string) (desc : bool) (a b : record) : Prop :=
  forall x y, JS.get a key = VNum x -> JS.get b key = VNum y ->
              if desc then y <= x else x <= y.

Definition string_order (key : string) (desc : bool) (a b : record) : Prop :=
  forall x y, JS.get a key = VStr x -> JS.get b key = VStr y ->
              if desc then String.leb y x = true else String.leb x y = true.


(** ** String conversions that raise *)

(* [String(v)] with its error path ([None] is the TypeError).  An object
   converts through its [toString]: the inherited one answers
   [[object Object]]; an own field of that name holds a JSON value, which
   is not callable, and then [valueOf] gives the object back, so the
   conversion raises.  An array joins the conversions of its elements. *)
Fixpoint to_string_checked (v : value) : option string :=
  match v with
  | VArr l =>
      option_map (JS.join ",")
        ((fix elements (l : list value) : option (list string) :=
            match l with
            | [] => Some []
            | x :: r =>
                match match x with
                      | VUndef | VNull => Some EmptyString
                      | _ => to_string_checked x
                      end, elements r with
                | Some s, Some t => Some (s :: t)
                | _, _ => None
                end
            end) l)
  | VObj fs =>
      match JS.own fs "toString" with
      | Some _ => None
      | None => Some "[object Object]"
      end
  | _ => Some (JS.to_string v)
  end.

(* a value that holds no object with an own [toString] field, at any
   depth: its conversions to a string or to a primitive do not raise *)
Fixpoint tame (v : value) : bool :=
  match v with
  | VArr l => forallb tame l
  | VObj fs =>
      andb (match JS.own fs "toString" with Some _ => false | None => true end)
           (forallb (fun kv => tame (snd kv)) fs)
  | _ => true
  end.

Definition tame_record (r : record) : bool :=
  forallb (fun kv => tame (snd kv)) r.

Definition tame_collection (db : store) (resource : string) : bool :=
  match db !! resource with
  | Some data => forallb tame_record data
  | None => true
  end.

(** ** The shape of a snapshot value *)

(* An array of the snapshot is given as [SArray]; [SOther] holds a value
   that is not an array. *)
Definition snapshot_shape (v : snapshot_value) : bool :=
  match v with
  | SOther (VArr _) => false
  | _ => true
  end.
(** ** Proofs *)

Section ComparatorFacts.
Context {A : Type}.
Variable cmp : A -> A -> Z.

Lemma consistent_on_incl (l l' : list A) :
  incl l' l -> consistent_on cmp l -> consistent_on cmp l'.
Proof. intros Hi H a b c Ha Hb Hc. apply H; apply Hi; assumption. Qed.

Lemma consistent_flip (l : list A) (a b : A) :
  consistent_on cmp l -> In a l -> In b l ->
  (cmp a b < 0 -> cmp b a > 0) /\ (cmp a b > 0 -> cmp b a < 0).
Proof.
  intros H Ha Hb.
  pose proof (H a b a Ha Hb Ha) as H1.
  pose proof (H b a b Hb Ha Hb) as H2.
  lia.
Qed.

Lemma consistent_le_trans (l : list A) (a b c : A) :
  consistent_on cmp l -> In a l -> In b l -> In c l ->
  cmp a b <= 0 -> cmp b c <= 0 -> cmp a c <= 0.
Proof.
  intros H Ha Hb Hc Hab Hbc.
  pose proof (H a b c Ha Hb Hc) as (_ & Sab & T1 & L1 & _).
  pose proof (H b a c Hb Ha Hc) as (_ & _ & T2 & _ & _).
  pose proof (H b c a Hb Hc Ha) as (_ & Sbc & _ & L2 & _).
  pose proof (H a c b Ha Hc Hb) as (_ & _ & T3 & _ & _).
  pose proof (H c a b Hc Ha Hb) as (_ & _ & _ & L3 & _).
  pose proof (consistent_flip l a c H Ha Hc) as [_ F].
  destruct (Z.lt_trichotomy (cmp a c) 0) as [Hac|[Hac|Hac]]; [lia|lia|].
  exfalso. assert (Hca : cmp c a < 0) by (apply F; lia).
  destruct (Z.eq_dec (cmp a b) 0) as [E1|E1];
    destruct (Z.eq_dec (cmp b c) 0) as [E2|E2].
  - specialize (T1 E1 E2). lia.
  - assert (cmp b c < 0) as Hlt by lia. specialize (L2 Hlt Hca).
    specialize (Sab E1). lia.
  - assert (cmp a b < 0) as Hlt by lia. specialize (L3 Hca Hlt).
    specialize (Sbc E2). lia.
  - assert (cmp a b < 0) as Hlt1 by lia. assert (cmp b c < 0) as Hlt2 by lia.
    specialize (L1 Hlt1 Hlt2). lia.
Qed.
End ComparatorFacts.

Section InsertionSort.
Context {A : Type}.
Variable cmp : A -> A -> Z.

Lemma insert_perm (x : A) (l : list A) : Permutation (x :: l) (insert cmp x l).
Proof.
  induction l as [|y r IH]; simpl; [constructor; constructor|].
  destruct (cmp x y <=? 0); [apply Permutation_refl|].
  eapply perm_trans; [apply perm_swap|]. apply perm_skip, IH.
Qed.

Lemma isort_perm (l : list A) : Permutation l (isort cmp l).
Proof.
  induction l as [|x r IH]; simpl; [constructor|].
  eapply perm_trans; [apply perm_skip, IH|]. apply insert_perm.
Qed.

Lemma isort_incl (L l : list A) : incl l L -> incl (isort cmp l) L.
Proof.
  intros Hi a Ha. apply Hi.
  eapply Permutation_in; [apply Permutation_sym, isort_perm|exact Ha].
Qed.

Lemma insert_ordered (L : list A) (x : A) (l : list A) :
  consistent_on cmp L -> In x L -> incl l L ->
  ordered cmp l -> ordered cmp (insert cmp x l).
Proof.
  intros HL Hx. induction l as [|y r IH]; intros Hi Ho; simpl.
  - constructor; constructor.
  - assert (Hy : In y L) by (apply Hi; left; reflexivity).
    assert (Hr : incl r L) by (intros a Ha; apply Hi; right; exact Ha).
    inversion Ho as [|? ? Hor Hall]; subst.
    destruct (cmp x y <=? 0) eqn:E.
    + apply Z.leb_le in E. constructor; [exact Ho|].
      constructor; [exact E|].
      rewrite List.Forall_forall in *. intros z Hz.
      apply (consistent_le_trans cmp L x y z); auto.
    + apply Z.leb_gt in E. constructor; [apply IH; assumption|].
      eapply Permutation_Forall; [apply insert_perm|].
      constructor; [|exact Hall].
      destruct (consistent_flip cmp L x y HL Hx Hy) as [_ F]. lia.
Qed.

Lemma isort_ordered (L l : list A) :
  consistent_on cmp L -> incl l L -> ordered cmp (isort cmp l).
Proof.
  intros HL. induction l as [|x r IH]; intros Hi; simpl; [constructor|].
  apply (insert_ordered L); auto.
  - apply Hi; left; reflexivity.
  - apply isort_incl. intros a Ha; apply Hi; right; exact Ha.
  - apply IH. intros a Ha; apply Hi; right; exact Ha.
Qed.

Lemma insert_filter (L : list A) (z x : A) (l : list A) :
  consistent_on cmp L -> In z L -> In x L -> incl l L ->
  List.filter (tied cmp z) (insert cmp x l) = List.filter (tied cmp z) (x :: l).
Proof.
  intros HL Hz Hx. induction l as [|y r IH]; intros Hi; [reflexivity|].
  assert (Hy : In y L) by (apply Hi; left; reflexivity).
  assert (Hr : incl r L) by (intros a Ha; apply Hi; right; exact Ha).
  simpl. destruct (cmp x y <=? 0) eqn:E; [reflexivity|].
  apply Z.leb_gt in E. simpl. rewrite (IH Hr). simpl.
  unfold tied.
  destruct (cmp z x =? 0) eqn:Ex; destruct (cmp z y =? 0) eqn:Ey; try reflexivity.
  apply Z.eqb_eq in Ex, Ey.
  pose proof (HL z x y Hz Hx Hy) as H1.
  pose proof (HL x z y Hx Hz Hy) as H2. lia.
Qed.

Lemma isort_filter (L : list A) (z : A) (l : list A) :
  consistent_on cmp L -> In z L -> incl l L ->
  List.filter (tied cmp z) (isort cmp l) = List.filter (tied cmp z) l.
Proof.
  intros HL Hz. induction l as [|x r IH]; intros Hi; [reflexivity|].
  assert (Hx : In x L) by (apply Hi; left; reflexivity).
  assert (Hr : incl r L) by (intros a Ha; apply Hi; right; exact Ha).
  simpl isort. rewrite (insert_filter L); auto using isort_incl.
  simpl. rewrite (IH Hr). reflexivity.
Qed.

Lemma isort_stable (l : list A) :
  consistent_on cmp l -> ordered cmp (isort cmp l) /\ stable_for cmp l (isort cmp l).
Proof.
  intros H. split.
  - apply (isort_ordered l); [exact H|apply incl_refl].
  - intros x Hx. apply (isort_filter l); [exact H|exact Hx|apply incl_refl].
Qed.
End InsertionSort.

Lemma isort_contract : sort_contract (@isort record).
Proof.
  intros cmp l. split; [apply isort_perm|apply isort_stable].
Qed.

Section RunSort.
Context {A : Type}.
Variable cmp : A -> A -> Z.



Lemma strongly_sorted_impl (R S : A -> A -> Prop) (l : list A) :
  (forall a b, R a b -> S a b) -> StronglySorted R l -> StronglySorted S l.
Proof.
  intros HRS. induction 1 as [|y r Hs IH Hall]; constructor; [exact IH|].
  eapply Forall_impl; [exact Hall|]. intros a. apply HRS.
Qed.





End RunSort.


(** ** Listing *)

Lemma db_get_own (db : store) (resource : string) (data : list record) :
  db !! resource = Some data -> db_get db resource = Own data.
Proof. intros H. unfold db_get. rewrite H. reflexivity. Qed.

Lemma filter_step_nil (data : list record) : filter_step [] data = data.
Proof.
  unfold filter_step. induction data as [|x r IH]; simpl; [reflexivity|].
  f_equal. exact IH.
Qed.

Lemma toInt_undefined (def : Z) : toInt VUndef def = def.
Proof. reflexivity. Qed.

Lemma firstn_clamp (A : Type) (l : list A) :
  firstn (Z.to_nat (Z.max 1 (Z.min 1000 (Z.of_nat (length l))))) l = firstn 1000 l.
Proof.
  destruct (Z.le_gt_cases 1000 (Z.of_nat (length l))) as [H|H].
  - rewrite Z.min_l, Z.max_r by lia. reflexivity.
  - rewrite Z.min_r by lia.
    rewrite !firstn_all2; [reflexivity|lia|lia].
Qed.

Lemma paginate_default (items : list record) :
  paginate VUndef VUndef items = (Z.of_nat (length items), firstn 1000 items).
Proof.
  unfold paginate. rewrite !toInt_undefined. unfold JS.slice.
  replace (Z.max 1 1 - 1) with 0 by lia.
  rewrite Z.mul_0_l, Z.add_0_l, Z.sub_0_r. simpl skipn.
  rewrite firstn_clamp. reflexivity.
Qed.

Lemma get_resource_plain srt (db : store) (resource : string) (data : list record) :
  db !! resource = Some data ->
  get_resource srt db resource [] =
    (db, Normal (Response 200
                   [("X-Total-Count", JS.num_to_string (Z.of_nat (length data)))]
                   (VArr (map VObj (firstn 1000 data))))).
Proof.
  intros H. unfold get_resource. rewrite (db_get_own _ _ _ H).
  change (rest_filters []) with (@nil (string * value)).
  rewrite filter_step_nil.
  change (JS.get [] "q") with VUndef. change (JS.get [] "_sort") with VUndef.
  change (JS.get [] "_order") with VUndef. change (JS.get [] "_page") with VUndef.
  change (JS.get [] "_limit") with VUndef.
  unfold search_step, sortItems. simpl JS.truthy. cbv iota. simpl negb. cbv iota.
  rewrite paginate_default. reflexivity.
Qed.

(** C1 (as stated) fails: a collection of 1001 records listed with no query
    parameters comes back cut to its first 1000 records. *)
Lemma list_all_counterexample : ~ list_all_as_stated.
Proof.
  intros H.
  specialize (H (@isort record) {[ "rows" := many_rows ]} "rows" many_rows
                (lookup_singleton_eq _ _)).
  rewrite (get_resource_plain _ _ _ _ (lookup_singleton_eq _ _)) in H.
  apply (f_equal (fun p => match snd p with
                           | Normal r => match body r with
                                         | VArr l => length l
                                         | _ => O
                                         end
                           | Throw => O
                           end)) in H.
  cbn [snd body] in H.
  rewrite !length_map, length_firstn in H.
  unfold many_rows in H. rewrite !repeat_length in H. lia.
Qed.

(** C1 (amended): for every collection present in the store, the list
    operation with no query parameters returns the first 1000 records of the
    collection (the whole collection when it has at most 1000), in insertion
    order, and the reported total count is the collection's length. *)
Theorem list_all_first_thousand srt (db : store) (resource : string)
    (data : list record) :
  db !! resource = Some data ->
  get_resource srt db resource [] =
    (db, Normal (Response 200
                   [("X-Total-Count", JS.num_to_string (Z.of_nat (length data)))]
                   (VArr (map VObj (firstn 1000 data)))))
  /\ ((length data <= 1000)%nat -> firstn 1000 data = data).
Proof.
  intros H. split; [apply get_resource_plain, H|].
  intros Hlen. apply firstn_all2, Hlen.
Qed.

Lemma list_all_first_thousand_witness :
  books_db !! "books" = Some books /\
  (get_resource (@isort record) books_db "books" [] =
     (books_db, Normal (Response 200
                   [("X-Total-Count", JS.num_to_string (Z.of_nat (length books)))]
                   (VArr (map VObj (firstn 1000 books)))))
   /\ ((length books <= 1000)%nat -> firstn 1000 books = books)).
Proof.
  split; [reflexivity|].
  apply (list_all_first_thousand (@isort record) books_db "books" books).
  reflexivity.
Defined.

(** ** Objects and arrays *)

Lemma own_set_eq (r : record) (k : string) (v : value) :
  JS.own (JS.set r k v) k = Some v.
Proof.
  induction r as [|[k' v'] r IH]; simpl.
  - rewrite String.eqb_refl. reflexivity.
  - destruct (String.eqb k' k) eqn:E; simpl; rewrite E; [reflexivity|exact IH].
Qed.

Lemma own_set_neq (r : record) (k k' : string) (v : value) :
  k' <> k -> JS.own (JS.set r k v) k' = JS.own r k'.
Proof.
  intros Hne. induction r as [|[k0 v0] r IH]; simpl.
  - destruct (String.eqb k k') eqn:E; [|reflexivity].
    apply String.eqb_eq in E. congruence.
  - destruct (String.eqb k0 k) eqn:E; simpl.
    + apply String.eqb_eq in E. subst k0.
      destruct (String.eqb k k') eqn:E'; [|reflexivity].
      apply String.eqb_eq in E'. congruence.
    + rewrite IH. reflexivity.
Qed.

Lemma get_own (r : record) (k : string) (v : value) :
  JS.own r k = Some v -> JS.get r k = v.
Proof. intros H. unfold JS.get. rewrite H. reflexivity. Qed.

Lemma has_id_own (r : record) :
  JS.has r "id" = match JS.own r "id" with Some _ => true | None => false end.
Proof. unfold JS.has. destruct (JS.own r "id"); reflexivity. Qed.

Section FindIndex.
Context {A : Type}.
Variable p : A -> bool.

Lemma findIndex_none (l : list A) :
  Forall (fun y => p y = false) l -> JS.findIndex p l = None.
Proof.
  induction 1 as [|x r Hx _ IH]; simpl; [reflexivity|].
  rewrite Hx, IH. reflexivity.
Qed.

Lemma findIndex_first (l1 l2 : list A) (x : A) :
  Forall (fun y => p y = false) l1 -> p x = true ->
  JS.findIndex p (l1 ++ x :: l2) = Some (length l1).
Proof.
  intros H Hx. induction H as [|y r Hy _ IH]; simpl.
  - rewrite Hx. reflexivity.
  - rewrite Hy, IH. reflexivity.
Qed.

(* either no element satisfies [p], or there is a first one *)
Lemma first_match_split (l : list A) :
  Forall (fun y => p y = false) l \/
  exists l1 x l2, l = l1 ++ x :: l2 /\ Forall (fun y => p y = false) l1 /\ p x = true.
Proof.
  induction l as [|y r IH]; [left; constructor|].
  destruct (p y) eqn:Ey.
  - right. exists [], y, r. repeat split; [constructor|exact Ey].
  - destruct IH as [IH|(l1 & x & l2 & -> & H1 & Hx)].
    + left. constructor; assumption.
    + right. exists (y :: l1), x, l2. repeat split; [constructor; assumption|exact Hx].
Qed.


Lemma lookup_middle (l1 l2 : list A) (x : A) :
  (l1 ++ x :: l2) !! length l1 = Some x.
Proof. apply list_lookup_middle. reflexivity. Qed.
End FindIndex.

(** ** Delete *)



(** ** Create *)

(** C10: a create request whose body has the key id, whatever value is
    under it (null included), gets no generated identifier: the record is
    stored and returned as sent. *)
Theorem post_keeps_present_id (uuid : string) (db : store) (resource : string)
    (data : list record) (sent : record) (v : value) :
  db !! resource = Some data ->
  JS.own sent "id" = Some v ->
  post_resource uuid db resource (Some sent) =
    (<[resource := data ++ [sent]]> db, Normal (json 201 (VObj sent)))
  /\ JS.get sent "id" = v.
Proof.
  intros H Hid. unfold post_resource. rewrite (db_get_own _ _ _ H).
  rewrite has_id_own, Hid. simpl negb. cbv iota.
  split; [reflexivity|apply get_own, Hid].
Qed.

Lemma post_keeps_present_id_witness :
  books_db !! "books" = Some books /\
  JS.own [("id", VNull); ("title", VStr "New")] "id" = Some VNull /\
  (post_resource "unused" books_db "books" (Some [("id", VNull); ("title", VStr "New")]) =
     (<["books" := books ++ [[("id", VNull); ("title", VStr "New")]]]> books_db,
      Normal (json 201 (VObj [("id", VNull); ("title", VStr "New")])))
   /\ JS.get [("id", VNull); ("title", VStr "New")] "id" = VNull).
Proof.
  split; [reflexivity|]. split; [reflexivity|].
  apply (post_keeps_present_id "unused" books_db "books" books
           [("id", VNull); ("title", VStr "New")] VNull); reflexivity.
Defined.

Lemma is_uuid_nonempty (s : string) : is_uuid s = true -> s <> EmptyString.
Proof. intros H ->. discriminate H. Qed.

Lemma post_resource_own (uuid : string) (db : store) (resource : string)
    (data : list record) (req_body : option record) :
  db !! resource = Some data ->
  let sent := match req_body with Some b => b | None => [] end in
  let stored := if negb (JS.has sent "id") then JS.set sent "id" (VStr uuid) else sent in
  post_resource uuid db resource req_body =
    (<[resource := data ++ [stored]]> db, Normal (json 201 (VObj stored))).
Proof.
  intros H. unfold post_resource. rewrite (db_get_own _ _ _ H). reflexivity.
Qed.

(** C6 (as stated) fails: nothing compares the generated identifier with
    the ids in use.  A collection that holds a record whose id is the very
    value the generator returns next receives a second record with that
    id. *)
Lemma create_counterexample : ~ create_as_stated.
Proof.
  intros H.
  destruct (H sample_uuid {[ "books" := [[("id", VStr sample_uuid)]] ]} "books"
              [[("id", VStr sample_uuid)]] (Some [("title", VStr "New")])
              (lookup_singleton_eq _ _) eq_refl)
    as (stored & _ & Hlack & _).
  destruct (Hlack eq_refl) as (_ & _ & Hunused).
  inversion Hunused as [|x r Hx _]; subst. discriminate Hx.
Qed.

(** C6 (amended): on an existing collection, Create appends the record to
    the end of the collection (the length grows by exactly 1) and answers
    201 with the stored record.  A record sent without an id field is given
    the identifier the UUID generator returns, a non-empty UUID-class
    string, before insertion; the identifier is not compared with the ids
    already in the collection.  A record sent with an id is stored as it
    is. *)
Theorem create_appends (uuid : string) (db : store) (resource : string)
    (data : list record) (req_body : option record) :
  db !! resource = Some data ->
  let sent := match req_body with Some b => b | None => [] end in
  exists stored,
    post_resource uuid db resource req_body =
      (<[resource := data ++ [stored]]> db, Normal (json 201 (VObj stored))) /\
    length (data ++ [stored]) = S (length data) /\
    (JS.has sent "id" = false ->
       stored = JS.set sent "id" (VStr uuid) /\
       JS.get stored "id" = VStr uuid /\
       (is_uuid uuid = true -> uuid <> EmptyString)) /\
    (JS.has sent "id" = true -> stored = sent).
Proof.
  intros H sent.
  pose proof (post_resource_own uuid db resource data req_body H) as Hp.
  cbv zeta in Hp. fold sent in Hp.
  eexists. split; [exact Hp|].
  split; [rewrite length_app; simpl; lia|].
  split.
  - intros Hno. rewrite Hno. simpl negb. cbv iota.
    split; [reflexivity|]. split; [apply get_own, own_set_eq|apply is_uuid_nonempty].
  - intros Hyes. rewrite Hyes. reflexivity.
Qed.

Lemma create_appends_witness :
  books_db !! "books" = Some books /\
  exists stored,
    post_resource sample_uuid books_db "books" (Some [("title", VStr "New")]) =
      (<["books" := books ++ [stored]]> books_db, Normal (json 201 (VObj stored))) /\
    length (books ++ [stored]) = S (length books) /\
    (JS.has [("title", VStr "New")] "id" = false ->
       stored = JS.set [("title", VStr "New")] "id" (VStr sample_uuid) /\
       JS.get stored "id" = VStr sample_uuid /\
       (is_uuid sample_uuid = true -> sample_uuid <> EmptyString)) /\
    (JS.has [("title", VStr "New")] "id" = true -> stored = [("title", VStr "New")]).
Proof.
  split; [reflexivity|].
  apply (create_appends sample_uuid books_db "books" books (Some [("title", VStr "New")])).
  reflexivity.
Defined.

(** ** Unknown resources *)

Lemma db_get_missing (db : store) (resource : string) :
  db !! resource = None -> JS.proto_member resource = false ->
  db_get db resource = Missing.
Proof. intros H Hp. unfold db_get. rewrite H, Hp. reflexivity. Qed.

Lemma db_get_inherited (db : store) (resource : string) :
  db !! resource = None -> JS.proto_member resource = true ->
  db_get db resource = Inherited.
Proof. intros H Hp. unfold db_get. rewrite H, Hp. reflexivity. Qed.

(* A name that is neither a collection nor a member of Object.prototype is
   answered "Resource not found" by every route, the store untouched. *)
Lemma unknown_resource_not_found srt (db : store) (resource id uuid : string)
    (query : record) (req_body : option record) :
  db !! resource = None -> JS.proto_member resource = false ->
  get_resource srt db resource query = (db, Normal resource_not_found) /\
  get_resource_id db resource id = (db, Normal resource_not_found) /\
  post_resource uuid db resource req_body = (db, Normal resource_not_found) /\
  put_resource_id db resource id req_body = (db, Normal resource_not_found) /\
  patch_resource_id db resource id req_body = (db, Normal resource_not_found) /\
  delete_resource_id db resource id = (db, Normal resource_not_found).
Proof.
  intros H Hp.
  unfold get_resource, get_resource_id, post_resource, put_resource_id,
    patch_resource_id, delete_resource_id.
  rewrite (db_get_missing _ _ H Hp). repeat split.
Qed.

(* A name that only Object.prototype knows makes every route throw. *)
Lemma inherited_resource_throws srt (db : store) (resource id uuid : string)
    (query : record) (req_body : option record) :
  db !! resource = None -> JS.proto_member resource = true ->
  get_resource srt db resource query = (db, Throw) /\
  get_resource_id db resource id = (db, Throw) /\
  post_resource uuid db resource req_body = (db, Throw) /\
  put_resource_id db resource id req_body = (db, Throw) /\
  patch_resource_id db resource id req_body = (db, Throw) /\
  delete_resource_id db resource id = (db, Throw).
Proof.
  intros H Hp.
  unfold get_resource, get_resource_id, post_resource, put_resource_id,
    patch_resource_id, delete_resource_id.
  rewrite (db_get_inherited _ _ H Hp). repeat split.
Qed.

(* A collection the loader replaced by the empty array takes a write. *)
Lemma normalized_collection_accepts (d : gmap string snapshot_value)
    (resource uuid : string) (v : value) (sent : record) :
  d !! resource = Some (SOther v) ->
  ensureArrays d !! resource = Some [] /\
  exists stored,
    post_resource uuid (ensureArrays d) resource (Some sent) =
      (<[resource := [stored]]> (ensureArrays d), Normal (json 201 (VObj stored))).
Proof.
  intros H.
  assert (He : ensureArrays d !! resource = Some []).
  { unfold ensureArrays. rewrite lookup_fmap, H. reflexivity. }
  split; [exact He|].
  eexists. rewrite (post_resource_own uuid _ resource [] (Some sent) He).
  reflexivity.
Qed.

(** C7 (the code departs from the claim): the name constructor is not a
    collection of the store, and no route answers "Resource not found" for
    it: the lookup finds the member inherited from Object.prototype, the
    guard lets it pass and the handler throws. *)
Theorem unknown_resource_constructor :
  books_db !! "constructor" = None /\
  get_resource (@isort record) books_db "constructor" [] = (books_db, Throw) /\
  get_resource_id books_db "constructor" "1" = (books_db, Throw) /\
  post_resource sample_uuid books_db "constructor" (Some [("title", VStr "New")])
    = (books_db, Throw) /\
  put_resource_id books_db "constructor" "1" (Some [("title", VStr "New")])
    = (books_db, Throw) /\
  patch_resource_id books_db "constructor" "1" (Some [("title", VStr "New")])
    = (books_db, Throw) /\
  delete_resource_id books_db "constructor" "1" = (books_db, Throw).
Proof.
  split; [reflexivity|].
  apply inherited_resource_throws; reflexivity.
Qed.

(** ** Replace and merge *)


Lemma insert_middle (A : Type) (l1 l2 : list A) (x y : A) :
  <[length l1 := y]> (l1 ++ x :: l2) = l1 ++ y :: l2.
Proof. induction l1 as [|a l1 IH]; simpl; [reflexivity|]. f_equal. exact IH. Qed.



(** ** Numbers and their decimal strings *)

Section NumericStrings.
Import Decimal.

Lemma take_digits_uint (d : uint) :
  snd (JS.take_digits 10 (NilEmpty.string_of_uint d)) = EmptyString /\
  (forall acc : positive,
      fold_left (fun a k => a * 10 + k) (fst (JS.take_digits 10 (NilEmpty.string_of_uint d)))
        (Z.pos acc)
      = Z.pos (Pos.of_uint_acc d acc)) /\
  JS.digits_value 10 (fst (JS.take_digits 10 (NilEmpty.string_of_uint d)))
  = Z.of_N (Pos.of_uint d).
Proof.
  unfold JS.digits_value.
  induction d as [|d IH|d IH|d IH|d IH|d IH|d IH|d IH|d IH|d IH|d IH];
    [repeat split|..];
    destruct IH as (IH1 & IH2 & IH3);
    cbn [NilEmpty.string_of_uint JS.take_digits];
    change (JS.digit_in 10 _) with (Some 0) || change (JS.digit_in 10 _) with (Some 1)
    || change (JS.digit_in 10 _) with (Some 2) || change (JS.digit_in 10 _) with (Some 3)
    || change (JS.digit_in 10 _) with (Some 4) || change (JS.digit_in 10 _) with (Some 5)
    || change (JS.digit_in 10 _) with (Some 6) || change (JS.digit_in 10 _) with (Some 7)
    || change (JS.digit_in 10 _) with (Some 8) || change (JS.digit_in 10 _) with (Some 9);
    destruct (JS.take_digits 10 (NilEmpty.string_of_uint d)) as [ds rest];
    cbn [fst snd fold_left Pos.of_uint Pos.of_uint_acc] in *;
    (split; [exact IH1|]); split.
  all: try (intros acc; rewrite <- IH2; f_equal; lia).
  all: try (rewrite Z.mul_0_l, Z.add_0_l; exact IH3).
  all: rewrite Z.mul_0_l, Z.add_0_l; rewrite IH2; reflexivity.
Qed.

Lemma no_ws_uint (d : uint) :
  JS.trim_end (NilEmpty.string_of_uint d) = NilEmpty.string_of_uint d /\
  JS.skip_ws (NilEmpty.string_of_uint d) = NilEmpty.string_of_uint d.
Proof.
  induction d as [|d [IH _]|d [IH _]|d [IH _]|d [IH _]|d [IH _]|d [IH _]
                 |d [IH _]|d [IH _]|d [IH _]|d [IH _]];
    [split; reflexivity|..]; split; try reflexivity;
    cbn [NilEmpty.string_of_uint JS.trim_end]; rewrite IH; reflexivity.
Qed.

Lemma decimal_literal_plain (s : string) (ds : list Z) :
  JS.take_sign s = (1, s) -> String.eqb s "Infinity" = false ->
  JS.take_digits 10 s = (ds, EmptyString) -> ds <> [] ->
  JS.decimal_literal s = JS.Fin (inject_Z (1 * JS.digits_value 10 ds) * 1).
Proof.
  intros Hs Hi Hd Hne. unfold JS.decimal_literal. rewrite Hs, Hi, Hd.
  rewrite app_nil_r. destruct ds; [contradiction|]. reflexivity.
Qed.

Lemma decimal_literal_minus (s : string) (ds : list Z) :
  String.eqb s "Infinity" = false ->
  JS.take_digits 10 s = (ds, EmptyString) -> ds <> [] ->
  JS.decimal_literal (String "-" s) = JS.Fin (inject_Z (-1 * JS.digits_value 10 ds) * 1).
Proof.
  intros Hi Hd Hne. unfold JS.decimal_literal.
  change (JS.take_sign (String "-" s)) with ((-1), s). cbv iota. rewrite Hi, Hd.
  rewrite app_nil_r. destruct ds; [contradiction|]. reflexivity.
Qed.

(* the facts about the decimal rendering of a positive number *)
Lemma uint_string_facts (p : positive) :
  let s := NilEmpty.string_of_uint (Pos.to_uint p) in
  JS.take_sign s = (1, s) /\ String.eqb s "Infinity" = false /\
  JS.trim_end (JS.skip_ws s) = s /\
  (exists ds, JS.take_digits 10 s = (ds, EmptyString) /\ ds <> [] /\
              JS.digits_value 10 ds = Z.pos p) /\
  JS.string_to_number s = JS.decimal_literal s /\
  JS.string_to_number (String "-" s) = JS.decimal_literal (String "-" s).
Proof.
  intros s.
  pose proof (DecimalPos.Unsigned.to_uint_nonnil p) as Hnn.
  pose proof (take_digits_uint (Pos.to_uint p)) as (T1 & _ & T3).
  pose proof (no_ws_uint (Pos.to_uint p)) as [W1 W2].
  rewrite DecimalPos.Unsigned.of_to in T3.
  fold s in T1, T3, W1, W2. clearbody s.
  assert (Htrim : JS.trim_end (JS.skip_ws s) = s) by (rewrite W2; exact W1).
  assert (Hdig : exists ds, JS.take_digits 10 s = (ds, EmptyString) /\ ds <> [] /\
                            JS.digits_value 10 ds = Z.pos p).
  { destruct (JS.take_digits 10 s) as [ds rest]. simpl in T1, T3. subst rest.
    exists ds. split; [reflexivity|]. split; [|exact T3].
    intros ->. discriminate T3. }
  destruct Hdig as (ds & Hd & Hne & Hv).
  assert (Hfirst : exists c r, s = String c r /\ JS.digit_in 10 c <> None).
  { destruct s as [|c r]; [simpl in Hd; injection Hd as <-; contradiction|].
    exists c, r. split; [reflexivity|]. intros Hc. simpl in Hd. rewrite Hc in Hd.
    injection Hd as <- _. contradiction. }
  destruct Hfirst as (c & r & -> & Hc).
  assert (Hcases : In c ["0"; "1"; "2"; "3"; "4"; "5"; "6"; "7"; "8"; "9"]%char).
  { destruct c as [[] [] [] [] [] [] [] []]; try (exfalso; apply Hc; reflexivity);
      simpl; tauto. }
  assert (Hsign : JS.take_sign (String c r) = (1, String c r)).
  { simpl in Hcases. intuition subst; reflexivity. }
  assert (Hinf : String.eqb (String c r) "Infinity" = false).
  { simpl in Hcases. intuition subst; reflexivity. }
  split; [exact Hsign|]. split; [exact Hinf|]. split; [exact Htrim|].
  split; [exists ds; auto|].
  split.
  - unfold JS.string_to_number. rewrite Htrim.
    simpl in Hcases. destruct Hcases as [<-|Hcases]; [|intuition subst; reflexivity].
    destruct r as [|c' r']; [reflexivity|].
    simpl in Hd. destruct (JS.digit_in 10 c') eqn:Hc'.
    + destruct c' as [[] [] [] [] [] [] [] []]; try discriminate Hc'; reflexivity.
    + injection Hd as _ Hd. discriminate Hd.
  - unfold JS.string_to_number.
    assert (Htrim' : JS.trim_end (JS.skip_ws (String "-" (String c r))) =
                     String "-" (String c r)).
    { change (JS.skip_ws (String "-" (String c r))) with (String "-" (String c r)).
      change (JS.trim_end (String "-" (String c r)))
        with (String "-" (JS.trim_end (String c r))).
      rewrite W1. reflexivity. }
    rewrite Htrim'. reflexivity.
Qed.

Lemma nilzero_string (d : uint) :
  d <> Nil -> NilZero.string_of_uint d = NilEmpty.string_of_uint d.
Proof. destruct d; [contradiction|..]; reflexivity. Qed.

(* a number equals, loosely, its own decimal rendering *)
Lemma loose_eq_numeric_string (n : Z) :
  JS.loose_eq (VNum n) (VStr (JS.num_to_string n)) = true.
Proof.
  unfold JS.loose_eq. cbn [JS.is_object andb JS.nullish orb JS.to_primitive].
  unfold JS.to_number. cbn [JS.is_object JS.to_primitive].
  unfold JS.num_to_string.
  destruct n as [|p|p]; [reflexivity|..];
    pose proof (uint_string_facts p) as (Hs & Hi & _ & (ds & Hd & Hne & Hv) & Hp & Hm);
    cbn [Z.to_int NilZero.string_of_int];
    rewrite (nilzero_string _ (DecimalPos.Unsigned.to_uint_nonnil p)).
  - rewrite Hp, (decimal_literal_plain _ _ Hs Hi Hd Hne), Hv.
    apply Qeq_bool_iff. rewrite Z.mul_1_l, Qmult_1_r. reflexivity.
  - rewrite Hm, (decimal_literal_minus _ _ Hi Hd Hne), Hv.
    apply Qeq_bool_iff. rewrite Qmult_1_r. reflexivity.
Qed.
End NumericStrings.

(** ** Filtering *)

Lemma matches_cons (item : record) (k : string) (v : value) (rest : record) :
  matches item ((k, v) :: rest) =
    if is_reserved k then matches item rest
    else andb (key_match (JS.get item k) v) (matches item rest).
Proof.
  simpl. destruct (is_reserved k); [reflexivity|].
  unfold key_match.
  destruct v, (JS.get item k); cbn [JS.is_string andb JS.to_string];
    first [ destruct (String.eqb _ _); reflexivity
          | destruct (JS.loose_eq _ _); reflexivity ].
Qed.

Lemma matches_all (item query : record) :
  matches item query = true <->
  forall k v, In (k, v) query -> is_reserved k = false ->
              key_match (JS.get item k) v = true.
Proof.
  induction query as [|[k v] rest IH].
  - split; [intros _ k v []|reflexivity].
  - rewrite matches_cons. split.
    + intros H k' v' [Heq|Hin] Hres.
      * inversion Heq; subst. rewrite Hres in H. apply andb_prop in H. apply H.
      * apply IH; [|exact Hin|exact Hres].
        destruct (is_reserved k); [exact H|]. apply andb_prop in H. apply H.
    + intros H.
      assert (Hrest : matches item rest = true).
      { apply IH. intros k' v' Hin. apply H. right. exact Hin. }
      destruct (is_reserved k) eqn:E; [exact Hrest|].
      rewrite Hrest, (H k v (or_introl eq_refl) E). reflexivity.
Qed.

Lemma key_match_undefined (v : value) :
  key_match VUndef v = true <-> JS.loose_eq v VUndef = true.
Proof.
  unfold key_match. rewrite andb_false_r.
  destruct v; simpl; split; intros H; try reflexivity; try discriminate H.
Qed.

(* The filter step keeps a record exactly when the record matches every
   filter key that is not reserved, a key matching by case-insensitive
   equality when the query value and the field value are both strings and
   by loose equality otherwise (a numeric string equals the number, null
   and undefined are equal).  A record whose field READS undefined matches
   only a query value that is loosely equal to undefined; a field the
   record does not have reads undefined when its name is not a member of
   [Object.prototype]. *)
Lemma filter_step_keeps_matching :
  (forall (data : list record) (filters x : record),
      In x (filter_step filters data) <->
      In x data /\
      forall k v, In (k, v) filters -> is_reserved k = false ->
                  key_match (JS.get x k) v = true) /\
  (forall (x : record) (k : string) (v : value),
      JS.get x k = VUndef ->
      (key_match (JS.get x k) v = true <-> JS.loose_eq v VUndef = true)) /\
  (forall (x : record) (k : string),
      JS.own x k = None -> JS.proto_member k = false -> JS.get x k = VUndef) /\
  (forall n : Z, key_match (VNum n) (VStr (JS.num_to_string n)) = true) /\
  key_match (VStr "bob") (VStr "Bob") = true /\
  key_match (VStr "bob") (VStr "bo") = false /\
  key_match (VNum 1965) (VStr "1965") = true /\
  key_match (VNum 1965) (VStr "1966") = false /\
  key_match VNull VUndef = true /\
  key_match VUndef VNull = true /\
  key_match VUndef (VStr "undefined") = false.
Proof.
  split; [|split; [|split; [|split]]].
  - intros data filters x. unfold filter_step.
    rewrite List.filter_In, matches_all. reflexivity.
  - intros x k v ->. apply key_match_undefined.
  - intros x k Ho Hp. unfold JS.get. rewrite Ho, Hp. reflexivity.
  - intros n. apply loose_eq_numeric_string.
  - repeat split.
Qed.

(** C2: a record missing the filtered field is NOT always a non-match.
    [matches] reads [item[k]] through the prototype chain (line 88), so for
    a key that names a member of [Object.prototype] a record without that
    field reads the inherited member, and a query value equal to the
    member's string conversion matches it under [!=].  With the two sample
    books, neither of which has a [constructor] field, and the query
    [?constructor=function Object() { [native code] }], whose value is not
    loosely equal to undefined, the filter keeps both records and the list
    route answers 200 with both. *)
Theorem missing_field_inherited_name :
  let text := "function Object() { [native code] }" in
  let query := [("constructor", VStr text)] in
  JS.own dune "constructor" = None /\
  JS.own foundation "constructor" = None /\
  is_reserved "constructor" = false /\
  JS.loose_eq (VStr text) VUndef = false /\
  JS.get dune "constructor" = VHost text /\
  matches dune query = true /\
  matches foundation query = true /\
  filter_step query books = books /\
  get_resource (@isort record) books_db "books" query =
    (books_db,
     Normal (Response 200 [("X-Total-Count", "2")]
                      (VArr [VObj dune; VObj foundation]))).
Proof.
  repeat split.
Qed.

(** ** The list pipeline *)


Lemma sortItems_perm srt (items sorted : list record) (sortKey order : value) :
  sort_contract srt ->
  sortItems srt items sortKey order = Normal sorted -> Permutation items sorted.
Proof.
  intros Hc. unfold sortItems.
  destruct (negb (JS.truthy sortKey)).
  - intros [= <-]. apply Permutation_refl.
  - destruct (direction order) as [dir|]; [|discriminate].
    intros [= <-]. apply Hc.
Qed.

(** ** Search *)






(* the scenario: q=dune selects Dune alone *)
Example search_dune :
  get_resource (@isort record) books_db "books" [("q", VStr "dune")] =
    (books_db, Normal (Response 200 [("X-Total-Count", "1")] (VArr [VObj dune]))).
Proof. reflexivity. Qed.

(** ** Pagination *)



Lemma paginate_slice (_page _limit : value) (items : list record) :
  let page := Z.max 1 (toInt _page 1) in
  let limit := Z.max 1 (Z.min 1000 (toInt _limit (Z.of_nat (length items)))) in
  paginate _page _limit items =
    (Z.of_nat (length items),
     firstn (Z.to_nat limit) (skipn (Z.to_nat ((page - 1) * limit)) items)).
Proof.
  intros page limit. unfold paginate, JS.slice. fold page. fold limit.
  replace ((page - 1) * limit + limit - (page - 1) * limit) with limit by lia.
  reflexivity.
Qed.




(* the scenario: page 2 of size 1 is Foundation, the total is 2 *)
Example page_two_of_books :
  get_resource (@isort record) books_db "books"
      [("_page", VStr "2"); ("_limit", VStr "1")] =
    (books_db, Normal (Response 200 [("X-Total-Count", "2")] (VArr [VObj foundation]))).
Proof. reflexivity. Qed.

(* inputs that are not numbers fall back; a number too large for a double
   falls back as well *)
Example toInt_defaults :
  toInt (VStr "abc") 1 = 1 /\ toInt VUndef 7 = 7 /\ toInt (VStr "12abc") 1 = 12 /\
  toInt (VStr "-3") 1 = -3 /\ toInt (VObj []) 5 = 5.
Proof. repeat split. Qed.

(** ** Sorting *)

Lemma direction_string (order : value) :
  JS.truthy order = false \/ JS.is_string order = true ->
  direction order = Normal (if is_desc order then -1 else 1).
Proof.
  intros [H|H]; unfold direction.
  - rewrite H. destruct order; try reflexivity.
    simpl in H. apply negb_false_iff, String.eqb_eq in H. subst. reflexivity.
  - destruct order; try discriminate H. destruct (JS.truthy (VStr s)) eqn:E; [reflexivity|].
    simpl in E. apply negb_false_iff, String.eqb_eq in E. subst. reflexivity.
Qed.




Lemma gt_numbers (a b : Z) : JS.gt (VNum a) (VNum b) = (b <? a).
Proof.
  unfold JS.gt. simpl. unfold Qle_bool. simpl. rewrite !Z.mul_1_r.
  destruct (a <=? b) eqn:E; simpl; symmetry.
  - apply Z.leb_le in E. apply Z.ltb_ge. exact E.
  - apply Z.leb_gt in E. apply Z.ltb_lt. exact E.
Qed.

Lemma compare_by_numbers (key : string) (dir : Z) (a b : record) (x y : Z) :
  JS.get a key = VNum x -> JS.get b key = VNum y ->
  compare_by key dir a b = if x =? y then 0 else if y <? x then dir else - dir.
Proof.
  intros Ha Hb. unfold compare_by. rewrite Ha, Hb, gt_numbers. reflexivity.
Qed.

Lemma numeric_key_consistent (key : string) (desc : bool) (items : list record) :
  numeric_key key items ->
  consistent_on (compare_by key (if desc then -1 else 1)) items.
Proof.
  intros Hn a b c Ha Hb Hc. unfold numeric_key in Hn.
  rewrite List.Forall_forall in Hn.
  destruct (Hn a Ha) as [x Hx], (Hn b Hb) as [y Hy], (Hn c Hc) as [z Hz].
  rewrite (compare_by_numbers key _ a a x x Hx Hx),
    (compare_by_numbers key _ a b x y Hx Hy),
    (compare_by_numbers key _ b a y x Hy Hx),
    (compare_by_numbers key _ b c y z Hy Hz),
    (compare_by_numbers key _ a c x z Hx Hz).
  rewrite Z.eqb_refl.
  destruct (x =? y) eqn:E1, (y =? x) eqn:E2, (y =? z) eqn:E3, (x =? z) eqn:E4,
    (y <? x) eqn:L1, (x <? y) eqn:L2, (z <? y) eqn:L3, (z <? x) eqn:L4, desc;
    rewrite ?Z.eqb_eq, ?Z.eqb_neq, ?Z.ltb_lt, ?Z.ltb_ge in *;
    repeat split; intros; lia.
Qed.




(* the scenario: sorted by year, Foundation (1951) comes before Dune (1965) *)
Example sort_books_by_year :
  get_resource (@isort record) books_db "books"
      [("_sort", VStr "year"); ("_order", VStr "asc")] =
    (books_db,
     Normal (Response 200 [("X-Total-Count", "2")] (VArr [VObj foundation; VObj dune]))).
Proof. reflexivity. Qed.

(** ** Well-formed records are an invariant of the store *)

Lemma wf_set (r : record) (k : string) (v : value) :
  wf_record r = true -> wf_record (JS.set r k v) = true.
Proof.
  induction r as [|[k0 v0] r IH]; intros Hwf; [reflexivity|].
  simpl in Hwf. destruct (JS.own r k0) eqn:Ho; [discriminate|].
  simpl. destruct (String.eqb k0 k) eqn:E; simpl.
  - rewrite Ho. exact Hwf.
  - rewrite own_set_neq, Ho; [apply IH, Hwf|].
    intros ->. rewrite String.eqb_refl in E. discriminate.
Qed.

Lemma wf_spread (target src : record) :
  wf_record target = true -> wf_record (JS.spread target src) = true.
Proof.
  unfold JS.spread. revert target.
  induction src as [|[k v] src IH]; intros target Hwf; [exact Hwf|].
  simpl. apply IH, wf_set, Hwf.
Qed.

Lemma wf_store_insert (db : store) (resource : string) (data : list record) :
  wf_store db -> Forall (fun x => wf_record x = true) data ->
  wf_store (<[resource := data]> db).
Proof.
  intros Hdb Hdata r d Hr.
  destruct (decide (resource = r)) as [->|Hne].
  - rewrite lookup_insert_eq in Hr. injection Hr as <-. exact Hdata.
  - rewrite lookup_insert_ne in Hr by exact Hne. apply (Hdb r d Hr).
Qed.

Lemma db_get_own_inv (db : store) (resource : string) (data : list record) :
  db_get db resource = Own data -> db !! resource = Some data.
Proof.
  unfold db_get. destruct (db !! resource) as [d|]; [intros [= ->]; reflexivity|].
  destruct (JS.proto_member resource); discriminate.
Qed.

(* Every mutation keeps the store well formed, given a well-formed body. *)
Lemma mutations_keep_wf (db : store) (resource id uuid : string)
    (req_body : option record) :
  wf_store db ->
  wf_record (match req_body with Some b => b | None => [] end) = true ->
  wf_store (fst (post_resource uuid db resource req_body)) /\
  wf_store (fst (patch_resource_id db resource id req_body)) /\
  wf_store (fst (put_resource_id db resource id req_body)) /\
  wf_store (fst (delete_resource_id db resource id)).
Proof.
  intros Hdb Hbody.
  unfold post_resource, patch_resource_id, put_resource_id, delete_resource_id.
  destruct (db_get db resource) as [data| |] eqn:Hg; simpl; auto.
  pose proof (Hdb _ _ (db_get_own_inv _ _ _ Hg)) as Hdata.
  repeat split.
  - apply wf_store_insert; [exact Hdb|].
    apply Forall_app; split; [exact Hdata|]. constructor; [|constructor].
    destruct (negb (JS.has _ "id")); [apply wf_set|]; exact Hbody.
  - destruct (JS.findIndex (has_id id) data) as [idx|]; [|exact Hdb].
    destruct (data !! idx) as [old|] eqn:Hold; [|exact Hdb].
    apply wf_store_insert; [exact Hdb|].
    apply Forall_insert; [exact Hdata|]. apply wf_set, wf_spread, wf_spread. reflexivity.
  - destruct (JS.findIndex (has_id id) data) as [idx|]; [|exact Hdb].
    destruct (data !! idx) as [old|] eqn:Hold; [|exact Hdb].
    apply wf_store_insert; [exact Hdb|].
    apply Forall_insert; [exact Hdata|]. apply wf_set, wf_spread. reflexivity.
  - destruct (JS.findIndex (has_id id) data) as [idx|]; [|exact Hdb].
    apply wf_store_insert; [exact Hdb|]. unfold JS.splice1.
    apply Forall_app; split; [apply Forall_take|apply Forall_drop]; exact Hdata.
Qed.

(** * Further properties of the routes *)

(** ** What a route leaves alone *)

Lemma mutation_shape (db : store) (resource id uuid : string)
    (req_body : option record) :
  forall db',
    db' = fst (post_resource uuid db resource req_body) \/
    db' = fst (patch_resource_id db resource id req_body) \/
    db' = fst (put_resource_id db resource id req_body) \/
    db' = fst (delete_resource_id db resource id) ->
    db' = db \/ exists data data', db !! resource = Some data /\
                                    db' = <[resource := data']> db.
Proof.
  intros db' H.
  unfold post_resource, patch_resource_id, put_resource_id, delete_resource_id in H.
  destruct (db_get db resource) as [data| |] eqn:Hg; simpl in H;
    [|left; intuition|left; intuition].
  apply db_get_own_inv in Hg.
  destruct (JS.findIndex (has_id id) data) as [idx|];
    [destruct (data !! idx) as [old|]|]; simpl in H;
    destruct H as [-> | [-> | [-> | ->]]]; eauto.
Qed.

Lemma mutation_keeps (db db' : store) (resource id uuid : string)
    (req_body : option record) :
  db' = fst (post_resource uuid db resource req_body) \/
  db' = fst (patch_resource_id db resource id req_body) \/
  db' = fst (put_resource_id db resource id req_body) \/
  db' = fst (delete_resource_id db resource id) ->
  dom db' = dom db /\
  forall other, other <> resource -> db' !! other = db !! other.
Proof.
  intros H.
  destruct (mutation_shape db resource id uuid req_body db' H)
    as [->|(data & data' & Hd & ->)]; [auto|].
  split.
  - apply dom_insert_lookup_L. rewrite Hd. eauto.
  - intros other Hne. apply lookup_insert_ne. congruence.
Qed.

(** X2: a write touches one collection at most.  After Create, Merge,
    Replace or Delete on a resource, whatever the outcome, the store has
    the same collection names as before and every other collection is
    what it was. *)
Theorem writes_touch_one_collection (db : store) (resource id uuid : string)
    (req_body : option record) :
  forall db',
    db' = fst (post_resource uuid db resource req_body) \/
    db' = fst (patch_resource_id db resource id req_body) \/
    db' = fst (put_resource_id db resource id req_body) \/
    db' = fst (delete_resource_id db resource id) ->
    dom db' = dom db /\
    forall other, other <> resource -> db' !! other = db !! other.
Proof.
  intros db' H. apply (mutation_keeps db db' resource id uuid req_body H).
Qed.

Lemma writes_touch_one_collection_witness :
  dom (fst (post_resource sample_uuid books_db "books" (Some year_patch))) = dom books_db /\
  forall other, other <> "books" ->
    fst (post_resource sample_uuid books_db "books" (Some year_patch)) !! other
    = books_db !! other.
Proof.
  apply (writes_touch_one_collection books_db "books" "1" sample_uuid (Some year_patch)).
  left. reflexivity.
Defined.

(** ** Looking a record up by id *)

Lemma findIndex_find (A : Type) (p : A -> bool) (l : list A) :
  match JS.findIndex p l with
  | Some i => exists x, l !! i = Some x /\ List.find p l = Some x
  | None => List.find p l = None
  end.
Proof.
  induction l as [|y r IH]; simpl; [reflexivity|].
  destruct (p y); [exists y; auto|].
  destruct (JS.findIndex p r) as [i|]; simpl; exact IH.
Qed.










(** ** Objects as ordered lists of properties *)


Lemma set_fresh (r : record) (k : string) (v : value) :
  JS.own r k = None -> JS.set r k v = r ++ [(k, v)].
Proof.
  induction r as [|[k0 v0] r IH]; simpl; [reflexivity|].
  destruct (String.eqb k0 k); [discriminate|].
  intros H. rewrite (IH H). reflexivity.
Qed.

Lemma own_app (r r' : record) (k : string) :
  JS.own (r ++ r') k =
    match JS.own r k with Some v => Some v | None => JS.own r' k end.
Proof.
  induction r as [|[k0 v0] r IH]; simpl; [reflexivity|].
  destruct (String.eqb k0 k); [reflexivity|exact IH].
Qed.

Lemma own_in (s : record) (k : string) (v : value) :
  In (k, v) s -> JS.own s k <> None.
Proof.
  induction s as [|[k0 v0] s IH]; simpl; [tauto|].
  intros [[= -> ->]|Hin].
  - rewrite String.eqb_refl. discriminate.
  - destruct (String.eqb k0 k); [discriminate|apply IH, Hin].
Qed.

(* the binding of a key that a spread leaves is the last one of the source *)
Lemma own_spread_last (target src : record) (k : string) :
  JS.own (JS.spread target src) k =
    match JS.own (rev src) k with Some v => Some v | None => JS.own target k end.
Proof.
  unfold JS.spread. revert target.
  induction src as [|[k1 v1] src IH]; intros target; [reflexivity|].
  simpl fold_left. rewrite IH. simpl rev. rewrite own_app.
  destruct (JS.own (rev src) k); [reflexivity|]. simpl.
  destruct (String.eqb k1 k) eqn:E.
  - apply String.eqb_eq in E. subst. apply own_set_eq.
  - apply own_set_neq. intros ->. rewrite String.eqb_refl in E. discriminate.
Qed.

Lemma wf_app_fresh (acc r : record) (k : string) (v : value) :
  wf_record (acc ++ (k, v) :: r) = true -> JS.own acc k = None.
Proof.
  induction acc as [|[k0 v0] acc IH]; simpl; [reflexivity|].
  rewrite own_app. destruct (JS.own acc k0); [discriminate|].
  simpl. destruct (String.eqb k k0) eqn:E; [discriminate|].
  destruct (JS.own r k0); [discriminate|].
  intros H. rewrite (IH H).
  destruct (String.eqb k0 k) eqn:E'; [|reflexivity].
  apply String.eqb_eq in E'. subst. rewrite String.eqb_refl in E. discriminate.
Qed.

Lemma spread_onto (acc r : record) :
  wf_record (acc ++ r) = true -> JS.spread acc r = acc ++ r.
Proof.
  unfold JS.spread. revert acc.
  induction r as [|[k v] r IH]; intros acc Hwf; [symmetry; apply app_nil_r|].
  simpl. rewrite (set_fresh _ _ _ (wf_app_fresh _ _ _ _ Hwf)).
  rewrite IH; rewrite <- app_assoc; [reflexivity|exact Hwf].
Qed.

(* [{ ...r }] is a copy of [r] *)
Lemma spread_copy (r : record) : wf_record r = true -> JS.spread [] r = r.
Proof. intros H. apply (spread_onto [] r H). Qed.

Lemma keys_set_present (r : record) (k : string) (v : value) :
  JS.own r k <> None -> map fst (JS.set r k v) = map fst r.
Proof.
  induction r as [|[k0 v0] r IH]; simpl; [congruence|].
  destruct (String.eqb k0 k); [reflexivity|].
  intros H. simpl. rewrite (IH H). reflexivity.
Qed.

Lemma own_set_present (r : record) (k k' : string) (v : value) :
  JS.own r k' <> None -> JS.own (JS.set r k v) k' <> None.
Proof.
  intros H. destruct (String.eqb k k') eqn:E.
  - apply String.eqb_eq in E. subst. rewrite own_set_eq. discriminate.
  - rewrite own_set_neq; [exact H|].
    intros ->. rewrite String.eqb_refl in E. discriminate.
Qed.

Lemma keys_spread_present (target src : record) :
  (forall k v, In (k, v) src -> JS.own target k <> None) ->
  map fst (JS.spread target src) = map fst target.
Proof.
  unfold JS.spread. revert target.
  induction src as [|[k1 v1] src IH]; intros target H; [reflexivity|].
  simpl. rewrite IH.
  - apply keys_set_present. apply (H k1 v1). left. reflexivity.
  - intros k v Hin. apply own_set_present. apply (H k v). right. exact Hin.
Qed.

(* two objects with the same keys in the same order and the same value
   under each key are equal *)
Lemma record_ext (r r' : record) :
  wf_record r = true -> wf_record r' = true ->
  map fst r = map fst r' ->
  (forall k, JS.own r k = JS.own r' k) -> r = r'.
Proof.
  revert r'. induction r as [|[k v] r IH]; intros [|[k' v'] r'] Hw Hw' Hk Ho;
    try discriminate Hk; [reflexivity|].
  simpl in Hk. injection Hk as <- Hk.
  simpl in Hw, Hw'.
  destruct (JS.own r k) eqn:E; [discriminate|].
  destruct (JS.own r' k) eqn:E'; [discriminate|].
  pose proof (Ho k) as Hv. simpl in Hv. rewrite String.eqb_refl in Hv.
  injection Hv as <-. f_equal.
  apply IH; auto.
  intros k0. specialize (Ho k0). simpl in Ho.
  destruct (String.eqb k k0) eqn:Ek; [|exact Ho].
  apply String.eqb_eq in Ek. subst. congruence.
Qed.

(** ** Repeating a Replace or a Merge *)

Lemma has_id_same (id : string) (x y : record) :
  JS.get y "id" = JS.get x "id" -> has_id id y = has_id id x.
Proof. intros H. unfold has_id. rewrite H. reflexivity. Qed.

Lemma put_found (db : store) (resource id : string) (l1 l2 : list record)
    (old : record) (req_body : option record) :
  db !! resource = Some (l1 ++ old :: l2) ->
  unused_in l1 id -> has_id id old = true ->
  let sent := match req_body with Some b => b | None => [] end in
  let next := JS.set (JS.spread [] sent) "id" (JS.get old "id") in
  put_resource_id db resource id req_body =
    (<[resource := l1 ++ next :: l2]> db, Normal (json 200 (VObj next))).
Proof.
  intros H H1 Hx. unfold put_resource_id. rewrite (db_get_own _ _ _ H).
  rewrite (findIndex_first _ _ _ _ H1 Hx), lookup_middle, insert_middle.
  reflexivity.
Qed.

Lemma patch_found (db : store) (resource id : string) (l1 l2 : list record)
    (old : record) (req_body : option record) :
  db !! resource = Some (l1 ++ old :: l2) ->
  unused_in l1 id -> has_id id old = true ->
  let sent := match req_body with Some b => b | None => [] end in
  let merged := JS.set (JS.spread (JS.spread [] old) sent) "id" (JS.get old "id") in
  patch_resource_id db resource id req_body =
    (<[resource := l1 ++ merged :: l2]> db, Normal (json 200 (VObj merged))).
Proof.
  intros H H1 Hx. unfold patch_resource_id. rewrite (db_get_own _ _ _ H).
  rewrite (findIndex_first _ _ _ _ H1 Hx), lookup_middle, insert_middle.
  reflexivity.
Qed.

Lemma writes_not_found (db : store) (resource id : string)
    (data : list record) (req_body : option record) :
  db !! resource = Some data -> unused_in data id ->
  put_resource_id db resource id req_body = (db, Normal not_found) /\
  patch_resource_id db resource id req_body = (db, Normal not_found).
Proof.
  intros H Hn. unfold put_resource_id, patch_resource_id.
  rewrite (db_get_own _ _ _ H), (findIndex_none _ _ Hn). auto.
Qed.

(* merging the same fields into the outcome of a merge gives it back *)
Lemma merge_again (old sent : record) :
  let merged := JS.set (JS.spread (JS.spread [] old) sent) "id" (JS.get old "id") in
  JS.set (JS.spread (JS.spread [] merged) sent) "id" (JS.get merged "id") = merged.
Proof.
  intros merged.
  assert (Hwf : wf_record merged = true).
  { apply wf_set, wf_spread, wf_spread. reflexivity. }
  assert (Hid : JS.own merged "id" = Some (JS.get old "id")) by apply own_set_eq.
  rewrite (get_own _ _ _ Hid), (spread_copy _ Hwf).
  assert (Hother : forall k, k <> "id" ->
            JS.own merged k = JS.own (JS.spread (JS.spread [] old) sent) k).
  { intros k Hk. apply own_set_neq, Hk. }
  assert (Hpresent : forall k v, In (k, v) sent -> JS.own merged k <> None).
  { intros k v Hin. apply own_set_present. rewrite own_spread_last.
    pose proof (own_in (rev sent) k v) as Hr.
    destruct (JS.own (rev sent) k); [discriminate|].
    exfalso. apply Hr; [|reflexivity]. apply List.in_rev. rewrite rev_involutive.
    exact Hin. }
  apply record_ext.
  - apply wf_set, wf_spread, Hwf.
  - exact Hwf.
  - rewrite keys_set_present.
    + apply keys_spread_present, Hpresent.
    + rewrite own_spread_last, Hid. destruct (JS.own (rev sent) "id"); discriminate.
  - intros k. destruct (String.eqb k "id") eqn:E.
    + apply String.eqb_eq in E. subst. rewrite own_set_eq, Hid. reflexivity.
    + assert (Hk : k <> "id") by (intros ->; discriminate E).
      rewrite own_set_neq by exact Hk. rewrite own_spread_last, (Hother k Hk).
      rewrite own_spread_last.
      destruct (JS.own (rev sent) k); reflexivity.
Qed.

(** X6: Replace and Merge are idempotent.  Sending the same Replace, or the
    same Merge, a second time gives the answer of the first and leaves the
    store as the first left it; this holds for every outcome of the first
    request. *)
Theorem put_patch_idempotent (db : store) (resource id : string)
    (req_body : option record) :
  put_resource_id (fst (put_resource_id db resource id req_body)) resource id req_body
    = put_resource_id db resource id req_body /\
  patch_resource_id (fst (patch_resource_id db resource id req_body)) resource id req_body
    = patch_resource_id db resource id req_body.
Proof.
  destruct (db_get db resource) as [data| |] eqn:Hg.
  - apply db_get_own_inv in Hg.
    destruct (first_match_split (has_id id) data)
      as [Hn|(l1 & old & l2 & -> & H1 & Hx)].
    + destruct (writes_not_found db resource id data req_body Hg Hn)
        as [Hput Hpatch].
      rewrite Hput, Hpatch. simpl. rewrite Hput, Hpatch. auto.
    + rewrite (put_found _ _ _ _ _ _ req_body Hg H1 Hx).
      rewrite (patch_found _ _ _ _ _ _ req_body Hg H1 Hx). cbv zeta. simpl fst.
      split.
      * erewrite put_found; [|apply lookup_insert_eq|exact H1|].
        -- cbv zeta. rewrite (get_own _ _ _ (own_set_eq _ _ _)).
           rewrite insert_insert_eq. reflexivity.
        -- rewrite (has_id_same id old); [exact Hx|apply get_own, own_set_eq].
      * erewrite patch_found; [|apply lookup_insert_eq|exact H1|].
        -- cbv zeta. rewrite merge_again. rewrite insert_insert_eq. reflexivity.
        -- rewrite (has_id_same id old); [exact Hx|apply get_own, own_set_eq].
  - unfold put_resource_id, patch_resource_id. rewrite Hg. simpl. rewrite Hg. auto.
  - unfold put_resource_id, patch_resource_id. rewrite Hg. simpl. rewrite Hg. auto.
Qed.



(** ** Reading page and limit *)

Section ParseInt.
Import Decimal.

Lemma parseInt10_num_to_string (n : Z) :
  JS.parseInt10 (JS.num_to_string n) = Some n.
Proof.
  unfold JS.num_to_string.
  destruct n as [|p|p]; [reflexivity|..];
    pose proof (uint_string_facts p) as (Hs & _ & _ & (ds & Hd & Hne & Hv) & _ & _);
    pose proof (no_ws_uint (Pos.to_uint p)) as [_ Hw];
    cbn [Z.to_int NilZero.string_of_int];
    rewrite (nilzero_string _ (DecimalPos.Unsigned.to_uint_nonnil p));
    unfold JS.parseInt10.
  - rewrite Hw, Hs, Hd, Hv. destruct ds; [contradiction|]. f_equal; lia.
  - change (JS.skip_ws (String "-" ?s)) with (String "-" s).
    change (JS.take_sign (String "-" ?s)) with ((-1), s). cbv iota.
    rewrite Hd, Hv. destruct ds; [contradiction|]. f_equal; lia.
Qed.
End ParseInt.

Lemma isFinite_safe (n : Z) : Z.abs n <= 2 ^ 53 -> JS.isFinite n = true.
Proof.
  intros H. unfold JS.isFinite, JS.finite_bound. apply Z.ltb_lt.
  assert (Hb : 2 ^ 53 < 2 ^ 1024 - 2 ^ 970) by (vm_compute; reflexivity).
  lia.
Qed.

Lemma isFinite_huge (n : Z) : 2 ^ 1024 <= Z.abs n -> JS.isFinite n = false.
Proof.
  intros H. unfold JS.isFinite, JS.finite_bound. apply Z.ltb_ge.
  assert (Hb : 2 ^ 1024 - 2 ^ 970 <= 2 ^ 1024) by (vm_compute; discriminate).
  lia.
Qed.

Lemma toInt_decimal (n def : Z) :
  Z.abs n <= 2 ^ 53 -> toInt (VStr (JS.num_to_string n)) def = n.
Proof.
  intros H. unfold toInt. cbn [JS.to_string].
  rewrite parseInt10_num_to_string, (isFinite_safe _ H). reflexivity.
Qed.

(** X8: [toInt] reads back what an integer prints as.  For every integer
    [n] of magnitude at most 2^53, [toInt] of the decimal string of [n] is
    [n], whatever the default; the digits of a number of magnitude 2^1024
    or more, which overflows to Infinity, give the default. *)
Theorem toInt_reads_decimal (n def : Z) :
  (Z.abs n <= 2 ^ 53 -> toInt (VStr (JS.num_to_string n)) def = n) /\
  (2 ^ 1024 <= Z.abs n -> toInt (VStr (JS.num_to_string n)) def = def).
Proof.
  split; intros H; [apply toInt_decimal, H|].
  unfold toInt. cbn [JS.to_string].
  rewrite parseInt10_num_to_string, (isFinite_huge _ H). reflexivity.
Qed.

(** ** Pages *)

Lemma firstn_plus (A : Type) (a b : nat) (l : list A) :
  firstn (a + b) l = firstn a l ++ firstn b (skipn a l).
Proof.
  revert l. induction a as [|a IH]; intros l; [reflexivity|].
  destruct l as [|x l]; simpl.
  - rewrite firstn_nil. reflexivity.
  - rewrite IH. reflexivity.
Qed.

Lemma concat_windows (A : Type) (l : list A) (k n : nat) :
  concat (map (fun p => firstn k (skipn ((p - 1) * k) l)) (seq 1 n)) = firstn (n * k) l.
Proof.
  induction n as [|n IH]; [reflexivity|].
  rewrite seq_S, map_app, concat_app, IH. cbn [map concat].
  rewrite app_nil_r.
  replace (1 + n - 1)%nat with n by lia.
  replace (S n * k)%nat with (n * k + k)%nat by lia.
  symmetry. apply firstn_plus.
Qed.

Lemma paginate_decimal (p L : Z) (items : list record) :
  1 <= p <= 2 ^ 53 -> 1 <= L <= 1000 ->
  snd (paginate (VStr (JS.num_to_string p)) (VStr (JS.num_to_string L)) items) =
    firstn (Z.to_nat L) (skipn (Z.to_nat ((p - 1) * L)) items).
Proof.
  intros Hp HL. rewrite paginate_slice. cbn [snd].
  assert (Hb : 1000 <= 2 ^ 53) by (vm_compute; discriminate).
  rewrite !toInt_decimal by lia.
  rewrite (Z.max_r 1 p), (Z.min_r 1000 L), (Z.max_r 1 L) by lia.
  reflexivity.
Qed.

(** X9: the pages of one size, taken in order, are the sequence cut in
    pieces: for a limit between 1 and 1000, the page windows 1, 2, ..., n
    laid end to end give back the whole sequence as soon as n pages are
    enough to hold it, each record once and in order. *)
Theorem pages_cover_sequence (items : list record) (L : Z) (n : nat) :
  1 <= L <= 1000 ->
  Z.of_nat n <= 2 ^ 53 ->
  Z.of_nat (length items) <= Z.of_nat n * L ->
  concat (map (fun p : nat =>
                 snd (paginate (VStr (JS.num_to_string (Z.of_nat p)))
                        (VStr (JS.num_to_string L)) items))
            (seq 1 n)) = items.
Proof.
  intros HL Hn Hlen.
  rewrite (map_ext_in _ (fun p => firstn (Z.to_nat L)
                                    (skipn ((p - 1) * Z.to_nat L) items))).
  - rewrite concat_windows. apply firstn_all2. nia.
  - intros p Hp. apply in_seq in Hp.
    rewrite paginate_decimal by lia. do 2 f_equal. nia.
Qed.

Lemma pages_cover_sequence_witness :
  1 <= 1 <= 1000 /\ Z.of_nat 2 <= 2 ^ 53 /\
  Z.of_nat (length books) <= Z.of_nat 2 * 1 /\
  concat (map (fun p : nat =>
                 snd (paginate (VStr (JS.num_to_string (Z.of_nat p)))
                        (VStr (JS.num_to_string 1)) books))
            (seq 1 2)) = books.
Proof.
  assert (H1 : 1 <= 1 <= 1000) by lia.
  assert (H2 : Z.of_nat 2 <= 2 ^ 53) by (vm_compute; discriminate).
  assert (H3 : Z.of_nat (length books) <= Z.of_nat 2 * 1) by (vm_compute; discriminate).
  split; [exact H1|]. split; [exact H2|]. split; [exact H3|].
  exact (pages_cover_sequence books 1 2 H1 H2 H3).
Defined.

(** X10: a list answer is never longer than 1000 records.  Whatever the
    query asks for, when the list route answers 200 the body is an array of
    at most 1000 records, and of no more records than the total the header
    reports. *)
Theorem list_answer_bounded srt (db : store) (resource : string) (query : record)
    (resp : response) :
  snd (get_resource srt db resource query) = Normal resp ->
  status resp = 200 ->
  exists rows total,
    body resp = VArr (map VObj rows) /\
    headers resp = [("X-Total-Count", JS.num_to_string (Z.of_nat total))] /\
    (length rows <= 1000)%nat /\ (length rows <= total)%nat.
Proof.
  unfold get_resource.
  destruct (db_get db resource) as [data| |];
    [|intros H; simpl in H; discriminate
     |intros H; simpl in H; injection H as <-; discriminate].
  destruct (sortItems _ _ _ _) as [items|]; [|intros H; simpl in H; discriminate].
  rewrite paginate_slice. cbv zeta. cbn [snd].
  intros [= <-] _. cbn [body headers].
  eexists _, (length items). split; [reflexivity|]. split; [reflexivity|].
  rewrite length_firstn, length_skipn. lia.
Qed.

Lemma list_answer_bounded_witness :
  snd (get_resource (@isort record) books_db "books" [("_limit", VStr "5000")])
    = Normal (Response 200 [("X-Total-Count", "2")] (VArr [VObj dune; VObj foundation])) /\
  status (Response 200 [("X-Total-Count", "2")] (VArr [VObj dune; VObj foundation])) = 200 /\
  exists rows total,
    body (Response 200 [("X-Total-Count", "2")] (VArr [VObj dune; VObj foundation]))
      = VArr (map VObj rows) /\
    headers (Response 200 [("X-Total-Count", "2")] (VArr [VObj dune; VObj foundation]))
      = [("X-Total-Count", JS.num_to_string (Z.of_nat total))] /\
    (length rows <= 1000)%nat /\ (length rows <= total)%nat.
Proof.
  split; [reflexivity|]. split; [reflexivity|].
  exact (list_answer_bounded (@isort record) books_db "books" [("_limit", VStr "5000")]
           _ eq_refl eq_refl).
Defined.

(** ** Filters compose *)






(** ** Search *)

Lemma lower_ascii_idem (c : ascii) : JS.lower_ascii (JS.lower_ascii c) = JS.lower_ascii c.
Proof. destruct c as [[] [] [] [] [] [] [] []]; reflexivity. Qed.

Lemma toLowerCase_idem (s : string) : JS.toLowerCase (JS.toLowerCase s) = JS.toLowerCase s.
Proof.
  induction s as [|c s IH]; [reflexivity|].
  simpl. rewrite lower_ascii_idem, IH. reflexivity.
Qed.



(** ** When a route throws *)

Lemma direction_throws (order : value) :
  direction order = Throw <->
  JS.truthy order = true /\ JS.is_string order = false.
Proof.
  unfold direction.
  destruct order as [| |b|n|s|l|fs|p]; simpl;
    repeat match goal with
           | |- context [if ?c then _ else _] => destruct c; simpl
           end;
    (split; [try discriminate; auto|try (intros []; discriminate); auto]).
Qed.

Lemma by_index_total (data : list record) (id : string) :
  match JS.findIndex (has_id id) data with
  | Some idx => exists x, data !! idx = Some x
  | None => True
  end.
Proof.
  pose proof (findIndex_find _ (has_id id) data) as H.
  destruct (JS.findIndex (has_id id) data); [|exact I].
  destruct H as (x & Hx & _). eauto.
Qed.

(* On a tame value the conversion to a string does not raise, and gives
   what [JS.to_string] gives. *)
Lemma tame_to_string (v : value) :
  tame v = true -> to_string_checked v = Some (JS.to_string v).
Proof.
  revert v. fix tame_to_string 1.
  intros v. destruct v as [| |b|n|s|l|fs|p]; intros H; try reflexivity.
  - cbn [to_string_checked JS.to_string]. cbn [tame] in H.
    match goal with
    | |- option_map _ (?f l) = _ =>
        assert (E : f l = Some (map (fun x => match x with
                                             | VUndef | VNull => EmptyString
                                             | _ => JS.to_string x
                                             end) l))
    end.
    { induction l as [|x l IH]; [reflexivity|].
      cbn [forallb] in H. apply andb_prop in H as [Hx Hl].
      rewrite (IH Hl). cbn [map].
      pose proof (tame_to_string x Hx) as Ex.
      destruct x; try rewrite Ex; reflexivity. }
    rewrite E. reflexivity.
  - cbn [to_string_checked JS.to_string]. cbn [tame] in H.
    apply andb_prop in H as [H _].
    destruct (JS.own fs "toString"); [discriminate|reflexivity].
Qed.

Lemma tame_get (x : record) (k : string) :
  tame_record x = true -> tame (JS.get x k) = true.
Proof.
  unfold tame_record, JS.get. intros H.
  destruct (JS.own x k) as [v|] eqn:Ho.
  - induction x as [|[k0 v0] x IH]; [discriminate|].
    cbn [forallb snd] in H. apply andb_prop in H as [H0 Hx].
    cbn [JS.own] in Ho. destruct (String.eqb k0 k).
    + injection Ho as <-. exact H0.
    + apply IH; assumption.
  - destruct (JS.proto_member k); reflexivity.
Qed.

(** X13: what makes a route throw.  Take a collection whose records hold,
    in their fields, no object with an own [toString] field (at any depth),
    and a query whose values are of that kind: then no conversion of a
    field or of a query value to a string raises.  On such input the list
    route throws exactly when the resource is a name that only
    Object.prototype knows, or when, on a collection, a sort key is given
    together with an _order that is truthy and not a string.  Get one,
    Create, Merge, Replace and Delete throw exactly when the resource is
    such an inherited name. *)
Theorem routes_throw_exactly srt (db : store) (resource id uuid : string)
    (query : record) (req_body : option record) :
  tame_collection db resource = true ->
  tame_record query = true ->
  (forall data x k, db_get db resource = Own data -> In x data ->
     to_string_checked (JS.get x k) = Some (JS.to_string (JS.get x k))) /\
  (forall k, to_string_checked (JS.get query k) = Some (JS.to_string (JS.get query k))) /\
  (snd (get_resource srt db resource query) = Throw <->
     db_get db resource = Inherited \/
     ((exists data, db_get db resource = Own data) /\
      JS.truthy (JS.get query "_sort") = true /\
      JS.truthy (JS.get query "_order") = true /\
      JS.is_string (JS.get query "_order") = false)) /\
  (snd (get_resource_id db resource id) = Throw <-> db_get db resource = Inherited) /\
  (snd (post_resource uuid db resource req_body) = Throw
     <-> db_get db resource = Inherited) /\
  (snd (patch_resource_id db resource id req_body) = Throw
     <-> db_get db resource = Inherited) /\
  (snd (put_resource_id db resource id req_body) = Throw
     <-> db_get db resource = Inherited) /\
  (snd (delete_resource_id db resource id) = Throw <-> db_get db resource = Inherited).
Proof.
  intros Hdb Hq.
  split.
  { intros data x k Hg Hin. apply tame_to_string, tame_get.
    apply db_get_own_inv in Hg. unfold tame_collection in Hdb.
    rewrite Hg in Hdb. rewrite forallb_forall in Hdb. apply Hdb, Hin. }
  split; [intros k; apply tame_to_string, tame_get, Hq|].
  clear Hdb Hq.
  unfold get_resource, get_resource_id, post_resource, patch_resource_id,
    put_resource_id, delete_resource_id.
  destruct (db_get db resource) as [data| |] eqn:Hg.
  - split; [|repeat split; try discriminate].
    + unfold sortItems.
      destruct (JS.truthy (JS.get query "_sort")); simpl negb; cbv iota.
      * pose proof (direction_throws (JS.get query "_order")) as Hd.
        destruct (direction (JS.get query "_order")) as [dir|]; simpl.
        -- split; [discriminate|]. intros [|(_ & _ & Ht & Hs)]; [discriminate|].
           destruct Hd as [_ Hd]. specialize (Hd (conj Ht Hs)). discriminate.
        -- destruct Hd as [Hd _]. destruct (Hd eq_refl) as [Ht Hs].
           split; [|reflexivity]. intros _. right. eauto.
      * rewrite paginate_slice. simpl. split; [discriminate|].
        intros [|(_ & Hf & _)]; discriminate.
    + destruct (List.find (has_id id) data); discriminate.
    + pose proof (by_index_total data id) as Ht.
      destruct (JS.findIndex (has_id id) data) as [idx|]; [|discriminate].
      destruct Ht as [x Hx]. unfold record in *. rewrite Hx. discriminate.
    + pose proof (by_index_total data id) as Ht.
      destruct (JS.findIndex (has_id id) data) as [idx|]; [|discriminate].
      destruct Ht as [x Hx]. unfold record in *. rewrite Hx. discriminate.
    + destruct (JS.findIndex (has_id id) data); discriminate.
  - simpl. repeat split; auto.
  - simpl. repeat split; try discriminate. intros [|([data Hd] & _)]; discriminate.
Qed.

Lemma routes_throw_exactly_witness :
  let query := [("_sort", VStr "year"); ("_order", VArr [VStr "desc"])] in
  tame_collection books_db "books" = true /\
  tame_record query = true /\
  snd (get_resource (@isort record) books_db "books" query) = Throw /\
  (snd (get_resource_id books_db "books" "1") = Throw
     <-> db_get books_db "books" = Inherited).
Proof.
  intros query. split; [reflexivity|]. split; [reflexivity|].
  pose proof (routes_throw_exactly (@isort record) books_db "books" "1" sample_uuid
                query None eq_refl eq_refl) as (_ & _ & Hlist & Hone & _).
  split; [|exact Hone].
  apply Hlist. right. split; [exists books; reflexivity|].
  repeat split.
Defined.

(** ** Normalizing the snapshot *)

(** X14: every top-level key of the snapshot is served.  After
    [ensureArrays] the store has exactly the keys of the snapshot, and the
    list handler, asked for any of them without a query, answers 200: with
    the records when the value was an array of records, with no record and
    total 0 when it was not an array. *)
Theorem snapshot_keys_are_served srt (d : gmap string snapshot_value)
    (k : string) (v : snapshot_value) :
  let rows := match v with SArray rows => rows | SOther _ => [] end in
  d !! k = Some v ->
  snapshot_shape v = true ->
  dom (ensureArrays d) = dom d /\
  get_resource srt (ensureArrays d) k [] =
    (ensureArrays d,
     Normal (Response 200
               [("X-Total-Count", JS.num_to_string (Z.of_nat (length rows)))]
               (VArr (map VObj (firstn 1000 rows))))).
Proof.
  intros rows H _. split.
  - unfold ensureArrays. apply dom_fmap_L.
  - apply get_resource_plain. unfold ensureArrays. rewrite lookup_fmap, H.
    reflexivity.
Qed.

Lemma snapshot_keys_are_served_witness :
  ({[ "tags" := SOther (VStr "none") ]} : gmap string snapshot_value) !! "tags"
    = Some (SOther (VStr "none")) /\
  snapshot_shape (SOther (VStr "none")) = true /\
  dom (ensureArrays {[ "tags" := SOther (VStr "none") ]})
    = dom ({[ "tags" := SOther (VStr "none") ]} : gmap string snapshot_value) /\
  get_resource (@isort record) (ensureArrays {[ "tags" := SOther (VStr "none") ]}) "tags" [] =
    (ensureArrays {[ "tags" := SOther (VStr "none") ]},
     Normal (Response 200
               [("X-Total-Count", JS.num_to_string (Z.of_nat (length (@nil record))))]
               (VArr (map VObj (firstn 1000 []))))).
Proof.
  split; [reflexivity|]. split; [reflexivity|].
  exact (snapshot_keys_are_served (@isort record) {[ "tags" := SOther (VStr "none") ]}
           "tags" (SOther (VStr "none")) eq_refl eq_refl).
Defined.

(** ** The index *)

Lemma object_keys_elem (db : store) (k : string) :
  k ∈ object_keys db <-> exists data, db !! k = Some data.
Proof.
  unfold object_keys. rewrite list_elem_of_fmap. split.
  - intros ([k' data] & -> & Hin). apply elem_of_map_to_list in Hin. eauto.
  - intros [data H]. exists (k, data). split; [reflexivity|].
    apply elem_of_map_to_list. exact H.
Qed.

(** X15: the index names exactly the collections the list route serves, and
    no write changes it.  A name is among the resources that the index and
    the health route report if and only if the plain list of it answers 200;
    both routes report the same names; and after a Create, Merge, Replace
    or Delete, whatever its outcome, the names reported are those reported
    before. *)
Theorem index_lists_collections srt (db : store) (resource id uuid : string)
    (req_body : option record) :
  (forall k, k ∈ object_keys db <->
             exists resp, get_resource srt db k [] = (db, Normal resp) /\
                          status resp = 200) /\
  (exists names,
      get_api db = (db, Normal (json 200 (VObj [("resources", VArr (map VStr names))]))) /\
      get_api_health db =
        (db, Normal (json 200 (VObj [("ok", VBool true);
                                     ("resources", VArr (map VStr names))]))) /\
      forall k, k ∈ names <-> k ∈ object_keys db) /\
  (forall db',
      db' = fst (post_resource uuid db resource req_body) \/
      db' = fst (patch_resource_id db resource id req_body) \/
      db' = fst (put_resource_id db resource id req_body) \/
      db' = fst (delete_resource_id db resource id) ->
      object_keys db' ≡ₚ object_keys db).
Proof.
  split; [|split].
  - intros k. rewrite object_keys_elem. split.
    + intros [data H]. rewrite (get_resource_plain srt _ _ _ H). eauto.
    + intros (resp & Hr & Hs). unfold get_resource in Hr.
      destruct (db_get db k) as [data| |] eqn:Hg.
      * apply db_get_own_inv in Hg. eauto.
      * discriminate Hr.
      * injection Hr as <-. discriminate Hs.
  - exists (object_keys db). repeat split; auto.
  - intros db' H.
    destruct (mutation_keeps db db' resource id uuid req_body H) as [Hdom _].
    apply NoDup_Permutation.
    + apply NoDup_fst_map_to_list.
    + apply NoDup_fst_map_to_list.
    + intros k. rewrite !object_keys_elem.
      change (is_Some (db' !! k) <-> is_Some (db !! k)).
      rewrite <- !elem_of_dom, Hdom. reflexivity.
Qed.

(** ** Cold start *)

Lemma loadLocalDB_store (env : environment) (db : store) :
  fst (loadLocalDB env db) =
    match local_snapshot env with
    | Some d => ensureArrays d
    | None => db
    end.
Proof.
  unfold loadLocalDB, tryLoadFrom, local_snapshot.
  destruct (files env !! DB_PATH_API env) as [text|].
  - destruct (JSON_parse env text); reflexivity.
  - destruct (files env !! DB_PATH_ROOT env) as [text|]; [|reflexivity].
    destruct (JSON_parse env text); reflexivity.
Qed.

Lemma loadLocalDB_throw (env : environment) (db db1 : store) :
  loadLocalDB env db = (db1, Throw) -> db1 = db /\ local_snapshot env = None.
Proof.
  unfold loadLocalDB, tryLoadFrom, local_snapshot.
  destruct (files env !! DB_PATH_API env) as [text|].
  - destruct (JSON_parse env text); [discriminate|]. intros [= <-]. auto.
  - destruct (files env !! DB_PATH_ROOT env) as [text|]; [|intros [= <-]; auto].
    destruct (JSON_parse env text); [discriminate|]. intros [= <-]. auto.
Qed.

Lemma loadRemoteDB_outcome (env : environment) (url : string) (db : store) :
  loadRemoteDB env url db =
    match fetch env url with
    | Some (true, text) =>
        match JSON_parse env text with
        | Some d => (ensureArrays d, Normal tt)
        | None => (db, Throw)
        end
    | _ => (db, Throw)
    end.
Proof.
  unfold loadRemoteDB. destruct (fetch env url) as [[[] text]|]; reflexivity.
Qed.

Lemma loadLocalDB_retry (env : environment) :
  match loadLocalDB env ∅ with
  | (db1, Normal _) => db1
  | (db1, Throw) => fst (loadLocalDB env db1)
  end = fst (loadLocalDB env ∅).
Proof.
  destruct (loadLocalDB env ∅) as [db1 [u|]] eqn:E; [reflexivity|].
  destruct (loadLocalDB_throw _ _ _ E) as [-> _]. rewrite E. reflexivity.
Qed.

(* the first attempt and the retry, in one: the remote snapshot if it
   comes, else whatever the local load leaves *)
Lemma cold_start_attempts (env : environment) :
  cold_start env =
    match remote_snapshot env with
    | Some d => ensureArrays d
    | None => fst (loadLocalDB env ∅)
    end.
Proof.
  unfold cold_start, remote_snapshot.
  destruct (DATA_URL env) as [url|]; [|apply loadLocalDB_retry].
  destruct (JS.truthy (VStr url)); [|apply loadLocalDB_retry].
  rewrite loadRemoteDB_outcome.
  destruct (fetch env url) as [[[] text]|]; try reflexivity.
  destruct (JSON_parse env text); reflexivity.
Qed.

(** X16: what the requests are served from.  The cold start ends with the
    store of the remote snapshot when DATA_URL is set and not empty, the
    fetch succeeds with an ok response and the body parses; in every other
    case, with the store of the local snapshot when a local file parses;
    and with the empty store when neither does.  No failure is passed on,
    and a store is never left partly loaded. *)
Theorem cold_start_loads (env : environment) :
  cold_start env =
    match remote_snapshot env with
    | Some d => ensureArrays d
    | None =>
        match local_snapshot env with
        | Some d => ensureArrays d
        | None => ∅
        end
    end.
Proof.
  rewrite cold_start_attempts, loadLocalDB_store.
  destruct (remote_snapshot env); reflexivity.
Qed.

(** X17: the file beside the handler, when it exists, hides the file at the
    root.  If a file exists at the first local path, and the two paths
    differ, the cold start ends with the same store whatever is or is not
    at the root path: in particular a first file that does not parse is not
    made up for by a good file at the root. *)
Theorem api_file_hides_root_file (env : environment) (text : string)
    (other : option string) :
  files env !! DB_PATH_API env = Some text ->
  DB_PATH_API env <> DB_PATH_ROOT env ->
  cold_start (with_root_file env other) = cold_start env.
Proof.
  intros Hf Hne. rewrite !cold_start_attempts, !loadLocalDB_store.
  assert (Hl : local_snapshot (with_root_file env other) = local_snapshot env).
  { unfold local_snapshot, with_root_file. simpl.
    assert (Hf' : match other with
                  | Some t => <[DB_PATH_ROOT env := t]> (files env)
                  | None => delete (DB_PATH_ROOT env) (files env)
                  end !! DB_PATH_API env = Some text).
    { destruct other; [rewrite lookup_insert_ne|rewrite lookup_delete_ne];
        congruence. }
    rewrite Hf', Hf. reflexivity. }
  rewrite Hl. reflexivity.
Qed.

Lemma api_file_hides_root_file_witness :
  files sample_env !! DB_PATH_API sample_env = Some "broken" /\
  DB_PATH_API sample_env <> DB_PATH_ROOT sample_env /\
  cold_start (with_root_file sample_env None) = cold_start sample_env.
Proof.
  assert (Hne : DB_PATH_API sample_env <> DB_PATH_ROOT sample_env) by discriminate.
  split; [reflexivity|]. split; [exact Hne|].
  exact (api_file_hides_root_file sample_env "broken" None eq_refl Hne).
Defined.

(* a good file at the root, a broken one beside the handler, a remote
   source that answers with an error: nothing is loaded *)
Example sample_cold_start : cold_start sample_env = ∅.
Proof. rewrite cold_start_attempts. reflexivity. Qed.

(** ** Lookup by id and filter by id *)

Section LowerDigits.
Import Decimal.

Lemma lower_uint (d : uint) :
  JS.toLowerCase (NilEmpty.string_of_uint d) = NilEmpty.string_of_uint d.
Proof.
  induction d; simpl; rewrite ?IHd; reflexivity.
Qed.

(* a decimal rendering has no letter to lower *)
Lemma lower_digits (n : Z) : JS.toLowerCase (JS.num_to_string n) = JS.num_to_string n.
Proof.
  unfold JS.num_to_string.
  destruct n as [|p|p]; [reflexivity|..];
    cbn [Z.to_int NilZero.string_of_int];
    rewrite (nilzero_string _ (DecimalPos.Unsigned.to_uint_nonnil p)).
  - apply lower_uint.
  - simpl. rewrite lower_uint. reflexivity.
Qed.
End LowerDigits.

(** X18: a record that Get one finds is also kept by the equality filter on
    id, provided its id is a string or an integer: if the id of the record
    stringifies to the value asked for, the record passes the filter
    id=value.  (The filter keeps more: it ignores the case of a string id.) *)
Theorem found_by_id_passes_filter (x : record) (id : string) :
  has_id id x = true ->
  (JS.is_string (JS.get x "id") = true \/ exists n, JS.get x "id" = VNum n) ->
  matches x [("id", VStr id)] = true /\
  matches x [("id", VStr (JS.toLowerCase id))] = true.
Proof.
  unfold has_id. intros Hid Hkind. apply String.eqb_eq in Hid.
  rewrite !matches_cons. change (is_reserved "id") with false. cbv iota.
  simpl matches. rewrite !andb_true_r. unfold key_match.
  destruct Hkind as [Hs|[n Hn]].
  - destruct (JS.get x "id") as [| |b|n|s|l|fs|p]; try discriminate Hs.
    simpl in Hid. subst s. simpl. rewrite toLowerCase_idem, String.eqb_refl. auto.
  - rewrite Hn in *. simpl in Hid. subst id. cbn [JS.is_string andb].
    split; [apply loose_eq_numeric_string|].
    replace (JS.toLowerCase (JS.num_to_string n)) with (JS.num_to_string n);
      [apply loose_eq_numeric_string|].
    symmetry. apply lower_digits.
Qed.

Lemma found_by_id_passes_filter_witness :
  has_id "1" dune = true /\
  (JS.is_string (JS.get dune "id") = true \/ exists n, JS.get dune "id" = VNum n) /\
  matches dune [("id", VStr "1")] = true /\
  matches dune [("id", VStr (JS.toLowerCase "1"))] = true.
Proof.
  assert (Hk : JS.is_string (JS.get dune "id") = true \/
               exists n, JS.get dune "id" = VNum n) by (left; reflexivity).
  split; [reflexivity|]. split; [exact Hk|].
  exact (found_by_id_passes_filter dune "1" eq_refl Hk).
Defined.

(** ** Writes and the total *)




(** ** What the search finds *)

Lemma append_cons (x : ascii) (a b : string) :
  String.append (String x a) b = String x (String.append a b).
Proof. reflexivity. Qed.

Lemma append_nil_l (b : string) : String.append EmptyString b = b.
Proof. reflexivity. Qed.

Lemma append_assoc (a b c : string) :
  String.append (String.append a b) c = String.append a (String.append b c).
Proof.
  induction a as [|x a IH]; [reflexivity|]. rewrite !append_cons. f_equal. exact IH.
Qed.

Lemma append_nil_r (a : string) : String.append a EmptyString = a.
Proof.
  induction a as [|x a IH]; [reflexivity|]. rewrite append_cons. f_equal. exact IH.
Qed.

Lemma occurs_refl (n : string) : occurs n n.
Proof.
  exists EmptyString, EmptyString. rewrite append_nil_l, append_nil_r. reflexivity.
Qed.

Lemma occurs_left (n h x : string) : occurs n h -> occurs n (String.append x h).
Proof.
  intros (a & c & ->). exists (String.append x a), c. rewrite append_assoc. reflexivity.
Qed.

Lemma occurs_right (n h y : string) : occurs n h -> occurs n (String.append h y).
Proof.
  intros (a & c & ->). exists a, (String.append c y). rewrite !append_assoc. reflexivity.
Qed.

Lemma occurs_trans (n m h : string) : occurs n m -> occurs m h -> occurs n h.
Proof.
  intros (a & c & ->) Hm.
  destruct Hm as (a' & c' & ->).
  exists (String.append a' a), (String.append c c'). rewrite !append_assoc. reflexivity.
Qed.

Lemma startsWith_prefix (p s : string) :
  JS.startsWith p s = true <-> exists c, s = String.append p c.
Proof.
  revert s. induction p as [|x p IH]; intros s; simpl.
  - split; [intros _; exists s; reflexivity|reflexivity].
  - destruct s as [|y s].
    + split; [discriminate|intros [c Hc]; discriminate Hc].
    + destruct (Ascii.eqb x y) eqn:E.
      * apply Ascii.eqb_eq in E. subst y. rewrite IH. split.
        -- intros [c ->]. exists c. reflexivity.
        -- intros [c [= ->]]. exists c. reflexivity.
      * split; [discriminate|]. intros [c [= -> _]].
        rewrite Ascii.eqb_refl in E. discriminate.
Qed.

Lemma includes_step (h n : string) :
  JS.includes h n =
    if JS.startsWith n h then true
    else match h with
         | EmptyString => false
         | String _ r => JS.includes r n
         end.
Proof. destruct h; reflexivity. Qed.

(* [includes] is the substring test *)
Lemma includes_occurs (h n : string) : JS.includes h n = true <-> occurs n h.
Proof.
  induction h as [|x h IH]; rewrite includes_step.
  - destruct (JS.startsWith n EmptyString) eqn:E.
    + apply startsWith_prefix in E. destruct E as [c Hc].
      split; [intros _; exists EmptyString, c; exact Hc|reflexivity].
    + split; [discriminate|]. intros (a & c & Hc).
      destruct a; [|discriminate]. simpl in Hc.
      assert (Hs : JS.startsWith n EmptyString = true)
        by (apply startsWith_prefix; eauto).
      congruence.
  - destruct (JS.startsWith n (String x h)) eqn:E.
    + apply startsWith_prefix in E. destruct E as [c Hc].
      split; [intros _; exists EmptyString, c; exact Hc|reflexivity].
    + rewrite IH. split.
      * intros Ho. apply (occurs_left n h (String x EmptyString)) in Ho. exact Ho.
      * intros (a & c & Hc). destruct a as [|y a].
        -- simpl in Hc.
           assert (Hs : JS.startsWith n (String x h) = true)
             by (apply startsWith_prefix; eauto).
           congruence.
        -- simpl in Hc. injection Hc as _ ->. exists a, c. reflexivity.
Qed.

Lemma toLowerCase_append (a b : string) :
  JS.toLowerCase (String.append a b) =
    String.append (JS.toLowerCase a) (JS.toLowerCase b).
Proof.
  induction a as [|x a IH]; [reflexivity|].
  rewrite append_cons. cbn [JS.toLowerCase]. rewrite append_cons. f_equal. exact IH.
Qed.

Lemma occurs_lower (n h : string) :
  occurs n h -> occurs (JS.toLowerCase n) (JS.toLowerCase h).
Proof.
  intros (a & c & ->). exists (JS.toLowerCase a), (JS.toLowerCase c).
  rewrite !toLowerCase_append. reflexivity.
Qed.

Lemma escape_plain (s : string) : plain s = true -> JS.escape s = s.
Proof.
  induction s as [|c s IH]; [reflexivity|].
  cbn [plain JS.escape]. cbv zeta. intros H. apply andb_prop in H as [Hc Hs].
  apply andb_prop in Hc as [H32 Hc]. apply andb_prop in H32 as [H32 _].
  apply andb_prop in Hc as [H34 H92].
  rewrite (IH Hs). unfold JS.escape_char. cbv zeta.
  apply Nat.leb_le in H32.
  apply negb_true_iff in H34, H92. rewrite H34, H92.
  assert (E : forall k, (k < 32)%nat -> Nat.eqb (nat_of_ascii c) k = false)
    by (intros k Hk; apply Nat.eqb_neq; lia).
  rewrite !E by lia.
  assert (El : Nat.ltb (nat_of_ascii c) 32 = false) by (apply Nat.ltb_ge; lia).
  rewrite El. reflexivity.
Qed.

Lemma join_occurs (sep e : string) (l : list string) :
  In e l -> occurs e (JS.join sep l).
Proof.
  induction l as [|x l IH]; [intros []|].
  intros [->|Hin].
  - destruct l as [|y l]; [apply occurs_refl|].
    change (JS.join sep (e :: y :: l))
      with (String.append e (String.append sep (JS.join sep (y :: l)))).
    apply occurs_right with (h := e), occurs_refl.
  - destruct l as [|y l]; [destruct Hin|].
    change (JS.join sep (x :: y :: l))
      with (String.append x (String.append sep (JS.join sep (y :: l)))).
    apply occurs_left, occurs_left, IH, Hin.
Qed.

Lemma own_In (r : record) (k : string) (v : value) :
  JS.own r k = Some v -> In (k, v) r.
Proof.
  induction r as [|[k0 v0] r IH]; simpl; [discriminate|].
  destruct (String.eqb k0 k) eqn:E.
  - apply String.eqb_eq in E. intros [= ->]. left. congruence.
  - intros H. right. apply IH, H.
Qed.

(* the value of a string field stands in the serialization as it is *)
Lemma stringify_has_value (item : record) (k s : string) :
  In (k, VStr s) item -> plain s = true -> occurs s (JS.stringify item).
Proof.
  intros Hin Hp. unfold JS.stringify. cbn [JS.stringify_value].
  apply occurs_left, occurs_right.
  eapply occurs_trans; [|apply join_occurs, in_flat_map; exists (k, VStr s);
                          split; [exact Hin|left; reflexivity]].
  cbn [fst snd]. apply occurs_left, occurs_left.
  unfold JS.quote. rewrite (escape_plain _ Hp).
  apply (occurs_left s _ (String JS.dquote EmptyString)).
  apply occurs_right, occurs_refl.
Qed.

(** X20: the search finds a record by what its ASCII string fields hold.
    If a record has a string field whose value is made of printable ASCII
    characters other than the double quote and the backslash, every needle
    that occurs in that value, the case of the ASCII letters aside, keeps
    the record. *)
Theorem search_finds_field_text (item : record) (k s needle : string) :
  JS.own item k = Some (VStr s) ->
  plain s = true ->
  JS.includes (JS.toLowerCase s) (JS.toLowerCase needle) = true ->
  fullText item (VStr needle) = true.
Proof.
  intros Ho Hp Hn. unfold fullText. cbn [JS.to_string].
  apply includes_occurs. apply includes_occurs in Hn.
  eapply occurs_trans; [exact Hn|].
  apply occurs_lower, (stringify_has_value item k s); [apply own_In, Ho|exact Hp].
Qed.

Lemma search_finds_field_text_witness :
  JS.own foundation "title" = Some (VStr "Foundation") /\
  plain "Foundation" = true /\
  JS.includes (JS.toLowerCase "Foundation") (JS.toLowerCase "UNDA") = true /\
  fullText foundation (VStr "UNDA") = true.
Proof.
  split; [reflexivity|]. split; [reflexivity|]. split; [reflexivity|].
  exact (search_finds_field_text foundation "title" "Foundation" "UNDA"
           eq_refl eq_refl eq_refl).
Defined.

(** ** Sorting numbers and strings *)

Lemma ascii_compare_trans (a b c : ascii) :
  Ascii.compare a b = Lt -> Ascii.compare b c = Lt -> Ascii.compare a c = Lt.
Proof.
  unfold Ascii.compare. rewrite !N.compare_lt_iff. apply N.lt_trans.
Qed.

Lemma string_compare_trans (a b c : string) :
  String.compare a b = Lt -> String.compare b c = Lt -> String.compare a c = Lt.
Proof.
  revert b c. induction a as [|x a IH]; intros [|y b] [|z c]; simpl;
    try discriminate; try reflexivity.
  destruct (Ascii.compare x y) eqn:Exy; try discriminate;
    destruct (Ascii.compare y z) eqn:Eyz; try discriminate; intros H1 H2.
  - apply Ascii.compare_eq_iff in Exy, Eyz. subst.
    destruct (Ascii.compare z z) eqn:Ezz.
    + eapply IH; eauto.
    + reflexivity.
    + unfold Ascii.compare in Ezz. rewrite N.compare_refl in Ezz. discriminate.
  - apply Ascii.compare_eq_iff in Exy. subst. rewrite Eyz. reflexivity.
  - apply Ascii.compare_eq_iff in Eyz. subst. rewrite Exy. reflexivity.
  - rewrite (ascii_compare_trans _ _ _ Exy Eyz). reflexivity.
Qed.

Lemma string_compare_refl (s : string) : String.compare s s = Eq.
Proof.
  induction s as [|c s IH]; [reflexivity|]. simpl.
  unfold Ascii.compare. rewrite N.compare_refl. exact IH.
Qed.

Lemma compare_by_strings (key : string) (dir : Z) (a b : record) (x y : string) :
  JS.get a key = VStr x -> JS.get b key = VStr y ->
  compare_by key dir a b =
    match String.compare x y with Eq => 0 | Lt => - dir | Gt => dir end.
Proof.
  intros Ha Hb. unfold compare_by. rewrite Ha, Hb.
  cbn [JS.strict_eq]. unfold JS.gt. cbn [JS.to_primitive JS.is_object].
  unfold String.ltb.
  pose proof string_compare_refl as Hrefl.
  destruct (String.eqb x y) eqn:Ee.
  - apply String.eqb_eq in Ee. subst. rewrite Hrefl. reflexivity.
  - rewrite (String.compare_antisym y x).
    destruct (String.compare x y) eqn:E; simpl; try reflexivity.
    apply String.compare_eq_iff in E. subst. rewrite String.eqb_refl in Ee.
    discriminate.
Qed.

Lemma string_compare_gt_trans (a b c : string) :
  String.compare a b = Gt -> String.compare b c = Gt -> String.compare a c = Gt.
Proof.
  rewrite (String.compare_antisym a b), (String.compare_antisym b c),
    (String.compare_antisym a c).
  pose proof (string_compare_trans c b a) as T.
  destruct (String.compare b a), (String.compare c b), (String.compare c a);
    simpl; intros H1 H2; try discriminate; try reflexivity;
    specialize (T eq_refl eq_refl); discriminate T.
Qed.

Lemma string_key_consistent (key : string) (desc : bool) (items : list record) :
  string_key key items ->
  consistent_on (compare_by key (if desc then -1 else 1)) items.
Proof.
  intros Hn a b c Ha Hb Hc. unfold string_key in Hn.
  rewrite List.Forall_forall in Hn.
  destruct (Hn a Ha) as [x [Hx _]], (Hn b Hb) as [y [Hy _]], (Hn c Hc) as [z [Hz _]].
  rewrite (compare_by_strings key _ a a x x Hx Hx),
    (compare_by_strings key _ a b x y Hx Hy),
    (compare_by_strings key _ b a y x Hy Hx),
    (compare_by_strings key _ b c y z Hy Hz),
    (compare_by_strings key _ a c x z Hx Hz).
  rewrite string_compare_refl, (String.compare_antisym y x).
  pose proof (string_compare_trans x y z) as T1.
  pose proof (string_compare_gt_trans x y z) as T2.
  pose proof (String.compare_eq_iff x y) as E1.
  pose proof (String.compare_eq_iff y z) as E2.
  destruct (String.compare x y) eqn:C1, (String.compare y z) eqn:C2,
    (String.compare x z) eqn:C3;
    destruct desc; simpl; repeat split; intros; try lia; try discriminate; exfalso;
    first [ pose proof (T1 eq_refl eq_refl) as F; discriminate F
          | pose proof (T2 eq_refl eq_refl) as F; discriminate F
          | pose proof (E1 eq_refl); pose proof (E2 eq_refl); subst;
            rewrite string_compare_refl in C3; discriminate C3 ].
Qed.

Lemma ordered_numbers (key : string) (desc : bool) (a b : record) :
  compare_by key (if desc then -1 else 1) a b <= 0 -> number_order key desc a b.
Proof.
  intros H x y Hx Hy. rewrite (compare_by_numbers key _ a b x y Hx Hy) in H.
  destruct (x =? y) eqn:E1; [apply Z.eqb_eq in E1; destruct desc; lia|].
  destruct (y <? x) eqn:E2; destruct desc;
    rewrite ?Z.ltb_lt, ?Z.ltb_ge in E2; lia.
Qed.

Lemma ordered_strings (key : string) (desc : bool) (a b : record) :
  compare_by key (if desc then -1 else 1) a b <= 0 -> string_order key desc a b.
Proof.
  intros H x y Hx Hy. rewrite (compare_by_strings key _ a b x y Hx Hy) in H.
  unfold String.leb. rewrite (String.compare_antisym y x).
  destruct (String.compare x y), desc; simpl in *; try reflexivity; lia.
Qed.

(** X21: numbers sort numerically and ASCII strings sort in the order of
    their characters' codes.  When every record has a number under the sort
    key, or every record has an ASCII string under it, the sort key
    converts to a string without raising, and [_order] is absent or a
    string, the sort step answers a rearrangement of the collection in
    which, ascending, each record's value is at most the value of every
    record after it, and, descending, at least that value. *)
Theorem sort_orders_numbers_and_strings srt (items : list record)
    (sortKey order : value) :
  let key := JS.to_string sortKey in
  let desc := is_desc order in
  sort_contract srt ->
  JS.truthy sortKey = true ->
  tame sortKey = true ->
  (JS.truthy order = false \/ JS.is_string order = true) ->
  (numeric_key key items \/ string_key key items) ->
  to_string_checked sortKey = Some key /\
  exists sorted,
    sortItems srt items sortKey order = Normal sorted /\
    Permutation items sorted /\
    StronglySorted (number_order key desc) sorted /\
    StronglySorted (string_order key desc) sorted.
Proof.
  intros key desc Hc Hk Ht Ho Hkind.
  split; [apply tame_to_string, Ht|].
  assert (Hcons : consistent_on (compare_by key (if desc then -1 else 1)) items).
  { destruct Hkind; [apply numeric_key_consistent|apply string_key_consistent];
      assumption. }
  destruct (Hc (compare_by key (if desc then -1 else 1)) items) as [Hperm Hrest].
  destruct (Hrest Hcons) as [Hord _].
  exists (srt (compare_by key (if desc then -1 else 1)) items).
  split.
  - unfold sortItems. rewrite Hk. simpl negb. cbv iota.
    rewrite (direction_string _ Ho). reflexivity.
  - split; [exact Hperm|]. split.
    + eapply strongly_sorted_impl; [|exact Hord]. intros a b. apply ordered_numbers.
    + eapply strongly_sorted_impl; [|exact Hord]. intros a b. apply ordered_strings.
Qed.

Lemma books_string_title : string_key "title" books.
Proof.
  repeat constructor; [exists "Dune"|exists "Foundation"]; split; reflexivity.
Qed.

Lemma sort_orders_numbers_and_strings_witness :
  sort_contract (@isort record) /\
  JS.truthy (VStr "title") = true /\
  tame (VStr "title") = true /\
  (JS.truthy VUndef = false \/ JS.is_string VUndef = true) /\
  (numeric_key "title" books \/ string_key "title" books) /\
  to_string_checked (VStr "title") = Some "title" /\
  exists sorted,
    sortItems (@isort record) books (VStr "title") VUndef = Normal sorted /\
    Permutation books sorted /\
    StronglySorted (number_order "title" false) sorted /\
    StronglySorted (string_order "title" false) sorted.
Proof.
  split; [exact isort_contract|]. split; [reflexivity|]. split; [reflexivity|].
  split; [left; reflexivity|]. split; [right; exact books_string_title|].
  exact (sort_orders_numbers_and_strings (@isort record) books (VStr "title") VUndef
           isort_contract eq_refl eq_refl (or_introl eq_refl)
           (or_intror books_string_title)).
Defined.

(** ** Reading back what was written *)




(** ** What a list answer holds *)



Lemma found_elem (q : value) (filters : record) (data : list record) (x : record) :
  In x (search_step q (filter_step filters data)) <->
  In x data /\ matches x filters = true /\
  (JS.truthy q = true -> fullText x q = true).
Proof.
  unfold search_step, filter_step.
  destruct (JS.truthy q); rewrite ?List.filter_In; intuition congruence.
Qed.



(** X24: a list answer holds matching records only, and all of them when
    nothing is cut off.  Under the contract of the sort, every record of a
    list answer is a record of the collection that passes the filters and,
    if a needle is given, the search; and when the page is the first and
    the limit is at least the total, every such record is in the answer. *)
Theorem list_answer_is_the_matching_records srt (db : store) (resource : string)
    (data : list record) (query : record) (resp : response) :
  sort_contract srt ->
  db !! resource = Some data ->
  get_resource srt db resource query = (db, Normal resp) ->
  let wanted (x : record) :=
    In x data /\ matches x (rest_filters query) = true /\
    (JS.truthy (JS.get query "q") = true -> fullText x (JS.get query "q") = true) in
  exists rows total,
    resp = Response 200 [("X-Total-Count", JS.num_to_string (Z.of_nat total))]
             (VArr (map VObj rows)) /\
    (forall x, In x rows -> wanted x) /\
    (Z.max 1 (toInt (JS.get query "_page") 1) = 1 ->
     Z.of_nat total <= Z.max 1 (Z.min 1000 (toInt (JS.get query "_limit") (Z.of_nat total))) ->
     forall x, wanted x -> In x rows).
Proof.
  intros Hc H Hr wanted. unfold get_resource in Hr. rewrite (db_get_own _ _ _ H) in Hr.
  destruct (sortItems _ _ _ _) as [sorted|] eqn:Hs; [|discriminate].
  rewrite paginate_slice in Hr. cbv zeta in Hr. injection Hr as <-.
  pose proof (sortItems_perm _ _ _ _ _ Hc Hs) as Hperm.
  do 2 eexists. split; [reflexivity|]. split.
  - intros x Hx. apply found_elem.
    eapply Permutation_in; [apply Permutation_sym, Hperm|].
    apply list_elem_of_In. apply list_elem_of_In in Hx.
    eapply elem_of_sublist; [exact Hx|].
    etransitivity; [apply sublist_take|apply sublist_drop].
  - intros Hp Hl x Hx. rewrite Hp.
    rewrite Z.sub_diag, Z.mul_0_l. change (Z.to_nat 0) with 0%nat.
    rewrite drop_0, firstn_all2 by lia.
    eapply Permutation_in; [exact Hperm|]. apply found_elem, Hx.
Qed.

Lemma list_answer_is_the_matching_records_witness :
  sort_contract (@isort record) /\
  books_db !! "books" = Some books /\
  get_resource (@isort record) books_db "books" [("title", VStr "dune")] =
    (books_db, Normal (Response 200 [("X-Total-Count", "1")] (VArr [VObj dune]))) /\
  exists rows total,
    Response 200 [("X-Total-Count", "1")] (VArr [VObj dune]) =
      Response 200 [("X-Total-Count", JS.num_to_string (Z.of_nat total))]
        (VArr (map VObj rows)) /\
    (forall x, In x rows ->
       In x books /\ matches x (rest_filters [("title", VStr "dune")]) = true /\
       (JS.truthy (JS.get [("title", VStr "dune")] "q") = true ->
        fullText x (JS.get [("title", VStr "dune")] "q") = true)) /\
    (Z.max 1 (toInt (JS.get [("title", VStr "dune")] "_page") 1) = 1 ->
     Z.of_nat total <=
       Z.max 1 (Z.min 1000 (toInt (JS.get [("title", VStr "dune")] "_limit")
                              (Z.of_nat total))) ->
     forall x,
       In x books /\ matches x (rest_filters [("title", VStr "dune")]) = true /\
       (JS.truthy (JS.get [("title", VStr "dune")] "q") = true ->
        fullText x (JS.get [("title", VStr "dune")] "q") = true) ->
       In x rows).
Proof.
  split; [exact isort_contract|]. split; [reflexivity|]. split; [reflexivity|].
  exact (list_answer_is_the_matching_records (@isort record) books_db "books" books
           [("title", VStr "dune")] _ isort_contract eq_refl eq_refl).
Defined.
